(** * claude-compression-proxy: the payload transformation and forwarding
    pipeline of [src/interceptor.js]

    A shallow embedding of [compressText], [processPayload],
    [forwardToAnthropic] and [handleRequest], with the JavaScript values they
    handle, followed by the properties of the specification.

    Conventions of the embedding.
    - A JavaScript string is the Rocq [string] of its UTF-8 bytes; [.length]
      is the number of UTF-16 code units of that text ([utf16_length]).
      Strings with an unpaired surrogate are outside the embedding.
    - A JavaScript Number is an integer ([Z]) or [NaN]: token counts, lengths
      and counters are integers; fractions, infinities and rounding past
      2^53 are outside the embedding.
    - [undefined] is [None] in an [option json].
    - Coercing to a primitive an object that has a [toString] or [valueOf]
      property of its own is outside the embedding.
    - An [async] function returns a [promise]: fulfilled, rejected, or
      pending for ever when nothing will settle it; [await] on a pending
      promise never goes on.
    - Calls to [log] only write to the standard output and to the log file
      (errors of the latter are swallowed); they are left out of the
      pipeline and [log] is modelled on its own.
    - The platform functions [JSON.parse] and [JSON.stringify] are the fields
      of the class [Runtime]; the instance [node_fragment] implements them for
      the fragment of JSON with integer numerals.  [Buffer.prototype.toString]
      is the UTF-8 decoder of the Encoding standard. *)

From Stdlib Require Import ZArith QArith Ascii String List Bool Lia.
From Stdlib.Strings Require Import Byte.
From stdpp Require Import base option list strings gmap pretty.

Local Open Scope Z_scope.

(* ===================================================================== *)
(** ** JavaScript values *)
(* ===================================================================== *)

(** Values produced by [JSON.parse].  An object keeps its properties in
    enumeration order, which is the order [JSON.stringify] writes them in. *)
#[warnings="-register-all"] Inductive json : Type :=
| JNull
| JBool (b : bool)
| JNum (n : Z)
| JStr (s : string)
| JArr (items : list json)
| JObj (fields : list (string * json)).

(** Numbers as arithmetic produces them. *)
Inductive jsnum : Type :=
| NaN
| Num (z : Z).

(** Primitive values, the results of [ToPrimitive]. *)
Inductive prim : Type :=
| PUndefined
| PNull
| PBool (b : bool)
| PNumber (n : jsnum)
| PString (s : string).

(** An abrupt completion carries the message of the exception. *)
Inductive completion (A : Type) : Type :=
| Normal (a : A)
| Throw (message : string).
Arguments Normal {A} a.
Arguments Throw {A} message.

Global Instance completion_ret : MRet completion := fun A a => Normal a.

Global Instance completion_bind : MBind completion := fun A B k c =>
  match c with
  | Normal a => k a
  | Throw e => Throw e
  end.

(** The state of a promise: fulfilled with a value, rejected with the
    message of an exception, or pending with nothing left that could settle
    it. *)
Inductive promise (A : Type) : Type :=
| Fulfilled (a : A)
| Rejected (message : string)
| Pending.
Arguments Fulfilled {A} a.
Arguments Rejected {A} message.
Arguments Pending {A}.

(** The promise of an [async] function whose body completes as [c]. *)
Definition settle {A} (c : completion A) : promise A :=
  match c with
  | Normal a => Fulfilled a
  | Throw e => Rejected e
  end.

Global Instance json_inhabited : Inhabited json := populate JNull.

(** *** Strings *)

Definition ascii_code (c : ascii) : Z := Z.of_N (N_of_ascii c).

Definition ascii_of_Z (z : Z) : ascii := ascii_of_N (Z.to_N z).

Definition byte_code (b : byte) : Z := Z.of_N (Byte.to_N b).

(** UTF-8 continuation bytes are 10xxxxxx; the lead byte of a four-byte
    sequence (11110xxx) encodes a code point outside the BMP, which takes two
    UTF-16 code units. *)
Definition utf16_units (c : ascii) : Z :=
  let b := ascii_code c in
  if (b <? 128) then 1
  else if (b <? 192) then 0
  else if (b <? 240) then 1
  else 2.

Fixpoint utf16_length (s : string) : Z :=
  match s with
  | EmptyString => 0
  | String c rest => utf16_units c + utf16_length rest
  end.

Fixpoint string_ltb (a b : string) : bool :=
  match a, b with
  | EmptyString, EmptyString => false
  | EmptyString, String _ _ => true
  | String _ _, EmptyString => false
  | String x a', String y b' =>
      if (ascii_code x <? ascii_code y) then true
      else if (ascii_code y <? ascii_code x) then false
      else string_ltb a' b'
  end.

Fixpoint starts_with (p s : string) : bool :=
  match p, s with
  | EmptyString, _ => true
  | String _ _, EmptyString => false
  | String x p', String y s' => if Ascii.eqb x y then starts_with p' s' else false
  end.

(** [String.prototype.includes]. *)
Fixpoint includes (s p : string) : bool :=
  starts_with p s ||
  match s with
  | EmptyString => false
  | String _ s' => includes s' p
  end.

(** *** Property access *)

Fixpoint assoc (k : string) (fields : list (string * json)) : option json :=
  match fields with
  | [] => None
  | (k', v) :: rest => if String.eqb k k' then Some v else assoc k rest
  end.

(** [v.k] for the property names the proxy reads ([messages], [role],
    [content], [type], [text], [output], [output_tokens],
    [original_input_tokens]): none of them is a built-in property of a
    string, an array, a number or a boolean, and reading a property of
    [null] throws a TypeError. *)
Definition get (v : json) (k : string) : completion (option json) :=
  match v with
  | JNull => Throw ("Cannot read properties of null (reading '" +:+ k +:+ "')")
  | JObj fields => Normal (assoc k fields)
  | _ => Normal None
  end.

(** [o.k = v] on an object: an existing property keeps its place. *)
Fixpoint set_field (k : string) (v : json) (fields : list (string * json))
  : list (string * json) :=
  match fields with
  | [] => [(k, v)]
  | (k', v') :: rest =>
      if String.eqb k k' then (k, v) :: rest else (k', v') :: set_field k v rest
  end.

Definition set (o : json) (k : string) (v : json) : json :=
  match o with
  | JObj fields => JObj (set_field k v fields)
  | _ => o
  end.

(** [v.length]; every read in the source is guarded by a truthiness or
    [typeof] test, so it is never evaluated on [null]. *)
Definition js_length (v : json) : option json :=
  match v with
  | JStr s => Some (JNum (utf16_length s))
  | JArr items => Some (JNum (Z.of_nat (length items)))
  | JObj fields => assoc "length" fields
  | _ => None
  end.

(** *** Coercions *)

(** [ToBoolean]. *)
Definition truthy (v : option json) : bool :=
  match v with
  | None | Some JNull => false
  | Some (JBool b) => b
  | Some (JNum n) => negb (n =? 0)
  | Some (JStr s) => negb (String.eqb s "")
  | Some (JArr _) | Some (JObj _) => true
  end.

Definition join_with (sep : string) (parts : list string) : string :=
  match parts with
  | [] => ""
  | p :: rest => fold_left (fun acc q => acc +:+ sep +:+ q) rest p
  end.

(** [ToString] on a parsed value.  [Array.prototype.join] writes [null]
    elements as the empty string; an object without a [toString] of its own
    prints as [[object Object]]. *)
Fixpoint to_string (v : json) : string :=
  match v with
  | JNull => "null"
  | JBool true => "true"
  | JBool false => "false"
  | JNum n => pretty n
  | JStr s => s
  | JArr items =>
      join_with "," (map (fun x => match x with JNull => "" | _ => to_string x end) items)
  | JObj _ => "[object Object]"
  end.

(** [ToPrimitive]. *)
Definition to_primitive (v : option json) : prim :=
  match v with
  | None => PUndefined
  | Some JNull => PNull
  | Some (JBool b) => PBool b
  | Some (JNum n) => PNumber (Num n)
  | Some (JStr s) => PString s
  | Some (JArr items) => PString (to_string (JArr items))
  | Some (JObj fields) => PString (to_string (JObj fields))
  end.

Definition is_space (c : ascii) : bool :=
  let b := ascii_code c in
  (b =? 32) || ((9 <=? b) && (b <=? 13)).

Fixpoint trim_left (s : string) : string :=
  match s with
  | String c rest => if is_space c then trim_left rest else s
  | EmptyString => s
  end.

Definition digit_of (c : ascii) : option Z :=
  let b := ascii_code c in
  if (48 <=? b) && (b <=? 57) then Some (b - 48) else None.

(** Reads decimal digits up to trailing white space; [None] when another
    character is met. *)
Fixpoint digits_value (s : string) (acc : Z) : option Z :=
  match s with
  | EmptyString => Some acc
  | String c rest =>
      match digit_of c with
      | Some d => digits_value rest (10 * acc + d)
      | None => if String.eqb (trim_left s) "" then Some acc else None
      end
  end.

Definition unsigned_value (s : string) : jsnum :=
  match s with
  | EmptyString => NaN
  | String c _ =>
      match digit_of c with
      | None => NaN
      | Some _ => match digits_value s 0 with Some z => Num z | None => NaN end
      end
  end.

(** [StringToNumber] for decimal integer spellings: white space is trimmed,
    the empty string is 0, a sign may precede the digits.  Spellings with a
    fraction, an exponent, a radix prefix or [Infinity] denote Numbers that
    this embedding reads as [NaN]. *)
Definition string_to_number (s : string) : jsnum :=
  match trim_left s with
  | EmptyString => Num 0
  | String c rest as t =>
      if Ascii.eqb c "-" then
        match unsigned_value rest with Num z => Num (- z) | NaN => NaN end
      else if Ascii.eqb c "+" then unsigned_value rest
      else unsigned_value t
  end.

(** [ToNumber]. *)
Definition to_number (p : prim) : jsnum :=
  match p with
  | PUndefined => NaN
  | PNull => Num 0
  | PBool b => Num (if b then 1 else 0)
  | PNumber n => n
  | PString s => string_to_number s
  end.

(** [a < b]: two strings compare by code unit, anything else as numbers, and
    a comparison with [NaN] is false.  [a > b] is [js_lt b a]. *)
Definition js_lt (a b : prim) : bool :=
  match a, b with
  | PString x, PString y => string_ltb x y
  | _, _ =>
      match to_number a, to_number b with
      | Num x, Num y => x <? y
      | _, _ => false
      end
  end.

(** [a - b]. *)
Definition js_sub (a b : prim) : jsnum :=
  match to_number a, to_number b with
  | Num x, Num y => Num (x - y)
  | _, _ => NaN
  end.

Definition prim_to_string (p : prim) : string :=
  match p with
  | PUndefined => "undefined"
  | PNull => "null"
  | PBool true => "true"
  | PBool false => "false"
  | PNumber NaN => "NaN"
  | PNumber (Num z) => pretty z
  | PString s => s
  end.

(** [a + b]: concatenation as soon as one operand is a string. *)
Definition js_add (a b : prim) : prim :=
  match a, b with
  | PString _, _ | _, PString _ => PString (prim_to_string a +:+ prim_to_string b)
  | _, _ =>
      match to_number a, to_number b with
      | Num x, Num y => PNumber (Num (x + y))
      | _, _ => PNumber NaN
      end
  end.

(** [a + b] on two Numbers. *)
Definition num_add (a b : jsnum) : jsnum :=
  match a, b with
  | Num x, Num y => Num (x + y)
  | _, _ => NaN
  end.

(* ===================================================================== *)
(** ** The platform and the configuration *)
(* ===================================================================== *)

(** The built-in functions of the platform that the proxy calls.
    [JSON_parse] is [None] where [JSON.parse] throws a SyntaxError. *)
Class Runtime : Type := {
  JSON_parse : string -> option json;
  JSON_stringify : json -> string;
}.

(** *** Buffer.prototype.toString("utf-8") *)

Definition replacement : string :=
  String (ascii_of_Z 239) (String (ascii_of_Z 191) (String (ascii_of_Z 189) EmptyString)).

(** A sequence under way: its bytes so far, how many are still needed, and
    the range allowed for the next one. *)
Record partial : Type := {
  seen : string;
  needed : nat;
  lower : Z;
  upper : Z;
}.

(** The UTF-8 decoder of the Encoding standard, producing the UTF-8 bytes
    of the decoded text: a well-formed sequence is copied, and each maximal
    ill-formed part becomes U+FFFD. *)
Fixpoint utf8_decode (bytes : list byte) (st : option partial) : string :=
  match bytes with
  | [] => match st with None => EmptyString | Some _ => replacement end
  | b :: rest =>
      let c := byte_code b in
      let ch := ascii_of_byte b in
      let start :=
        if c <? 128 then String ch (utf8_decode rest None)
        else if (194 <=? c) && (c <=? 223) then
          utf8_decode rest
            (Some {| seen := String ch EmptyString; needed := 1; lower := 128; upper := 191 |})
        else if (224 <=? c) && (c <=? 239) then
          utf8_decode rest
            (Some {| seen := String ch EmptyString; needed := 2;
                     lower := if c =? 224 then 160 else 128;
                     upper := if c =? 237 then 159 else 191 |})
        else if (240 <=? c) && (c <=? 244) then
          utf8_decode rest
            (Some {| seen := String ch EmptyString; needed := 3;
                     lower := if c =? 240 then 144 else 128;
                     upper := if c =? 244 then 143 else 191 |})
        else replacement +:+ utf8_decode rest None in
      match st with
      | None => start
      | Some p =>
          if (lower p <=? c) && (c <=? upper p) then
            match needed p with
            | 1%nat => seen p +:+ String ch (utf8_decode rest None)
            | n =>
                utf8_decode rest
                  (Some {| seen := seen p +:+ String ch EmptyString;
                           needed := Nat.pred n; lower := 128; upper := 191 |})
            end
          else replacement +:+ start
      end
  end.

Definition Buffer_toString (bytes : list byte) : string := utf8_decode bytes None.


(** [Buffer.byteLength(s)] and the bytes [write(s)] puts on the wire: a
    string is held as its UTF-8 bytes. *)
Definition Buffer_byteLength (s : string) : Z := Z.of_nat (String.length s).
Definition Buffer_from (s : string) : list byte := list_byte_of_string s.

(** The object [config].  [ttcKey] is [process.env.TTC_KEY], undefined when
    the variable is not set; [minTextLength] is the result of [parseInt],
    which is [NaN] when the variable does not start with an integer. *)
Record config : Type := {
  ttcKey : option string;
  compressionThreshold : Q;
  anthropicHost : string;
  minTextLength : jsnum;
}.

(** The configuration of an environment that sets [TTC_KEY] only. *)
Definition default_config (key : option string) : config := {|
  ttcKey := key;
  compressionThreshold := 6 # 10;
  anthropicHost := "api.anthropic.com";
  minTextLength := Num 150;
|}.

(** *** The compression service *)

(** One request sent to the compression endpoint: the bearer credential and
    the three fields of the posted object. *)
Record compress_call : Type := {
  call_authorization : string;
  call_model : string;
  call_aggressiveness : Q;
  call_input : json;
}.

(** What becomes of a call.  The request emits ['error']; it emits
    ['timeout'] (the socket stayed idle for 30 s); the response arrives and
    emits ['end'] after the data received; the response starts and the
    connection is closed before its ['end'], which aborts the response
    (heard by no listener of the source) and makes the request emit neither
    ['error'] nor ['timeout']; or [https.request] itself throws, as it does
    when a header value holds a character that a header may not hold, and
    nothing is sent. *)
Inductive net_outcome : Type :=
| NetError (message : string)
| NetTimeout
| NetEnd (data : string)
| NetCut
| NetThrow (message : string).

(** The calls issued so far, oldest first. *)
Definition trace : Type := list compress_call.

(** [https.request] and the network: what becomes of a call given those
    before it. *)
Definition service : Type := trace -> compress_call -> net_outcome.

(** The body of an [async] function: it issues calls and ends with the
    state of the promise the function returned; the calls issued before an
    exception, or before an [await] that never goes on, stay issued. *)
Record proc (A : Type) : Type := Proc { run : trace -> promise A * trace }.
Arguments Proc {A} run.
Arguments run {A} p tr.

Global Instance proc_ret : MRet proc := fun A a => Proc (fun tr => (Fulfilled a, tr)).

Global Instance proc_bind : MBind proc := fun A B k m =>
  Proc (fun tr =>
    match run m tr with
    | (Fulfilled a, tr') => run (k a) tr'
    | (Rejected e, tr') => (Rejected e, tr')
    | (Pending, tr') => (Pending, tr')
    end).

(** A step that issues no call. *)
Definition lift {A} (c : completion A) : proc A := Proc (fun tr => (settle c, tr)).

(** [await] on the promise a call returned. *)
Definition await {A} (f : trace -> promise A * trace) : proc A := Proc f.

(* ===================================================================== *)
(** ** compressText *)
(* ===================================================================== *)

(** The object [{ text, saved, original }] a call resolves to. *)
Record compression : Type := {
  text : json;
  saved : jsnum;
  original : option json;
}.

(** [{ text, saved: 0, original: 0 }]. *)
Definition fallback (t : json) : compression :=
  {| text := t; saved := Num 0; original := Some (JNum 0) |}.

(** [!config.ttcKey]. *)
Definition no_credential (cfg : config) : bool :=
  match ttcKey cfg with
  | None => true
  | Some k => String.eqb k ""
  end.

Definition bearer (cfg : config) : string :=
  "Bearer " +:+ default "undefined" (ttcKey cfg).

Section Pipeline.
Context `{rt : Runtime}.
Variable cfg : config.
Variable svc : service.

(** The body of the [try] in the ['end'] handler. *)
Definition on_end (t : json) (data : string) : completion compression :=
  json ← from_option Normal (Throw "Unexpected token in JSON") (JSON_parse data);
  output ← get json "output";
  match output with
  | Some out =>
      if truthy (Some out) then
        output_tokens ← get json "output_tokens";
        original_input_tokens ← get json "original_input_tokens";
        if js_lt (to_primitive output_tokens) (to_primitive original_input_tokens) then
          let saved :=
            js_sub (to_primitive original_input_tokens) (to_primitive output_tokens) in
          Normal {| text := out; saved := saved; original := original_input_tokens |}
        else Normal (fallback t)
      else Normal (fallback t)
  | None => Normal (fallback t)
  end.

(** The promise [compressText(text)] returns.  The executor of [new
    Promise] runs [https.request]: an exception it throws rejects the
    promise; otherwise the promise is settled by the first listener that
    calls [resolve], and by nothing when no listener runs. *)
Definition compressText (t : json) : trace -> promise compression * trace := fun tr =>
  if no_credential cfg || negb (truthy (Some t))
     || js_lt (to_primitive (js_length t)) (PNumber (minTextLength cfg))
  then (Fulfilled (fallback t), tr)
  else
    let call := {| call_authorization := bearer cfg;
                   call_model := "bear-1";
                   call_aggressiveness := compressionThreshold cfg;
                   call_input := t |} in
    let tr' := tr ++ [call] in
    match svc tr call with
    | NetThrow message => (Rejected message, tr)
    | NetEnd data =>
        match on_end t data with
        | Normal r => (Fulfilled r, tr')
        | Throw _ => (Fulfilled (fallback t), tr')
        end
    | NetError _ => (Fulfilled (fallback t), tr')
    | NetTimeout => (Fulfilled (fallback t), tr')
    | NetCut => (Pending, tr')
    end.

(* ===================================================================== *)
(** ** processPayload *)
(* ===================================================================== *)

(** The two accumulators of the loop.  [totalSaved] starts at 0 and only
    Numbers are added to it; [totalOriginal] receives the service's
    [original_input_tokens] as it came. *)
Record totals : Type := {
  totalSaved : jsnum;
  totalOriginal : prim;
}.

Definition no_totals : totals :=
  {| totalSaved := Num 0; totalOriginal := PNumber (Num 0) |}.

(** [totalSaved += result.saved; totalOriginal += result.original]. *)
Definition add_result (acc : totals) (r : compression) : totals :=
  {| totalSaved := num_add (totalSaved acc) (saved r);
     totalOriginal := js_add (totalOriginal acc) (to_primitive (original r)) |}.

(** [x.length > config.minTextLength]. *)
Definition longer_than_min (len : option json) : bool :=
  js_lt (PNumber (minTextLength cfg)) (to_primitive len).

(** [v === s] for a string literal [s]. *)
Definition is_string (v : option json) (s : string) : bool :=
  match v with
  | Some (JStr x) => String.eqb x s
  | _ => false
  end.

(** One turn of the inner loop; returns the block as the turn leaves it. *)
Definition process_block (block : json) (acc : totals) : proc (json * totals) :=
  type ← lift (get block "type");
  if is_string type "text" then
    btext ← lift (get block "text");
    match btext with
    | Some t =>
        if truthy (Some t) && longer_than_min (js_length t) then
          result ← await (compressText t);
          mret (set block "text" (text result), add_result acc result)
        else mret (block, acc)
    | None => mret (block, acc)
    end
  else mret (block, acc).

(** [for (const x of items) body], the body updating [x] in place. *)
Fixpoint for_of (body : json -> totals -> proc (json * totals))
    (items : list json) (acc : totals) : proc (list json * totals) :=
  match items with
  | [] => mret ([], acc)
  | x :: rest =>
      '(x', acc') ← body x acc;
      '(rest', acc'') ← for_of body rest acc';
      mret (x' :: rest', acc'')
  end.

(** [["user", "assistant"].includes(msg.role)]. *)
Definition recognized_role (role : option json) : bool :=
  is_string role "user" || is_string role "assistant".

(** One turn of the outer loop. *)
Definition process_message (msg : json) (acc : totals) : proc (json * totals) :=
  role ← lift (get msg "role");
  if recognized_role role then
    content ← lift (get msg "content");
    match content with
    | Some (JStr s) =>
        if longer_than_min (js_length (JStr s)) then
          result ← await (compressText (JStr s));
          mret (set msg "content" (text result), add_result acc result)
        else mret (msg, acc)
    | Some (JArr blocks) =>
        '(blocks', acc') ← for_of process_block blocks acc;
        mret (set msg "content" (JArr blocks'), acc')
    | _ => mret (msg, acc)
    end
  else mret (msg, acc).

(** What [processPayload] resolves to. *)
Record payload_result : Type := {
  body : string;
  result_totalSaved : jsnum;
  result_totalOriginal : prim;
}.

(** [{ body: bodyStr, totalSaved: 0, totalOriginal: 0 }]. *)
Definition unchanged (bodyStr : string) : payload_result :=
  {| body := bodyStr; result_totalSaved := Num 0;
     result_totalOriginal := PNumber (Num 0) |}.

(** The body of the [try].  A string is iterable too: its characters are
    strings, which have no [role], so the loop leaves the payload as it is;
    [for ... of] over any other value that is not an array throws. *)
Definition processPayload_try (bodyStr : string) : proc payload_result :=
  payload ← lift (from_option Normal (Throw "Unexpected token in JSON") (JSON_parse bodyStr));
  messages ← lift (get payload "messages");
  if negb (truthy messages) then mret (unchanged bodyStr)
  else
    match messages with
    | Some (JArr msgs) =>
        '(msgs', acc) ← for_of process_message msgs no_totals;
        mret {| body := JSON_stringify (set payload "messages" (JArr msgs'));
                result_totalSaved := totalSaved acc;
                result_totalOriginal := totalOriginal acc |}
    | Some (JStr _) =>
        mret {| body := JSON_stringify payload;
                result_totalSaved := Num 0;
                result_totalOriginal := PNumber (Num 0) |}
    | _ => lift (Throw "body.messages is not iterable")
    end.

(** The promise [processPayload(bodyStr)] returns: the [catch] turns an
    exception of the [try] into the raw body; an [await] that never goes on
    leaves the promise pending. *)
Definition processPayload (bodyStr : string)
  : trace -> promise payload_result * trace :=
  fun tr =>
    match run (processPayload_try bodyStr) tr with
    | (Fulfilled r, tr') => (Fulfilled r, tr')
    | (Rejected _, tr') => (Fulfilled (unchanged bodyStr), tr')
    | (Pending, tr') => (Pending, tr')
    end.

End Pipeline.

(* ===================================================================== *)
(** ** forwardToAnthropic *)
(* ===================================================================== *)

(** A header value: a string, a list of strings for a repeated header, or
    the Number that [forwardToAnthropic] stores under [content-length]. *)
Inductive header_value : Type :=
| HStr (s : string)
| HList (l : list string)
| HNum (n : Z).

(** [req.headers]: lower-cased names to values. *)
Abbreviation header_map := (gmap string header_value).

(** [if (body)] on a value that is [null] or a string. *)
Definition present (body : option string) : bool :=
  match body with
  | Some s => negb (String.eqb s "")
  | None => false
  end.

Definition forward_headers (cfg : config) (headers : header_map)
    (body : option string) : header_map :=
  let forwardHeaders := headers in
  let forwardHeaders := <["host" := HStr (anthropicHost cfg)]> forwardHeaders in
  let forwardHeaders :=
    match body with
    | Some b =>
        if present body
        then <["content-length" := HNum (Buffer_byteLength b)]> forwardHeaders
        else forwardHeaders
    | None => forwardHeaders
    end in
  delete "transfer-encoding" (delete "keep-alive" (delete "connection" forwardHeaders)).

(** The request sent upstream: the [options] object and what is written
    before [end()]. *)
Record upstream_request : Type := {
  opt_hostname : string;
  opt_port : Z;
  opt_path : string;
  opt_method : string;
  opt_headers : header_map;
  written : option (list byte);
}.

(** The caller's response object [clientRes]: the status line and headers
    once written, the body chunks written so far, and whether [end()] was
    called. *)
Record client_response : Type := {
  head : option (Z * header_map);
  sent : list (list byte);
  ended : bool;
}.

Definition fresh_response : client_response :=
  {| head := None; sent := []; ended := false |}.

(** [res.writeHead(status, headers)] throws ERR_HTTP_HEADERS_SENT once the
    head is out. *)
Definition writeHead (status : Z) (headers : header_map) (res : client_response)
  : completion client_response :=
  match head res with
  | Some _ => Throw "Cannot write headers after they are sent to the client"
  | None => Normal {| head := Some (status, headers); sent := sent res; ended := ended res |}
  end.

Definition write (chunk : list byte) (res : client_response) : client_response :=
  if ended res then res
  else {| head := head res; sent := sent res ++ [chunk]; ended := false |}.

Definition end_response (res : client_response) : client_response :=
  {| head := head res; sent := sent res; ended := true |}.

(** What the outbound connection reports, in the order it reports it:
    ['error'] on the request, the response callback, and on the response
    ['data'], ['end'], or its abort (the connection closed before ['end']). *)
Inductive upstream_event : Type :=
| ReqError (message : string)
| Response (status : Z) (headers : header_map)
| ResData (chunk : list byte)
| ResEnd
| ResAborted.

(** [clientRes] and whether [proxyRes.pipe(clientRes)] is in place. *)
Record relay : Type := {
  clientRes : client_response;
  piping : bool;
}.

Section Forwarder.
Context `{rt : Runtime}.
Variable cfg : config.

(** The body of the 502 answer. *)
Definition bad_gateway (message : string) : string :=
  JSON_stringify (JObj [("error", JStr "Bad Gateway"); ("message", JStr message)]).

(** The listener the source registered for the event, if any.  The source
    listens to ['error'] on the request and to the response callback;
    [pipe] listens to ['data'] and ['end']; nothing listens to an abort of
    the response. *)
Definition on_event (ev : upstream_event) (r : relay) : completion relay :=
  match ev with
  | ReqError message =>
      res ← writeHead 502 ∅ (clientRes r);
      mret {| clientRes := end_response (write (Buffer_from (bad_gateway message)) res);
              piping := piping r |}
  | Response status headers =>
      res ← writeHead status headers (clientRes r);
      mret {| clientRes := res; piping := true |}
  | ResData chunk =>
      mret (if piping r
            then {| clientRes := write chunk (clientRes r); piping := true |}
            else r)
  | ResEnd =>
      mret (if piping r
            then {| clientRes := end_response (clientRes r); piping := true |}
            else r)
  | ResAborted => mret r
  end.

(** Events are handled in order; an exception thrown by a listener is not
    caught by anything, and the process stops there. *)
Fixpoint deliver (events : list upstream_event) (r : relay) : completion relay * relay :=
  match events with
  | [] => (Normal r, r)
  | ev :: rest =>
      match on_event ev r with
      | Normal r' => deliver rest r'
      | Throw e => (Throw e, r)
      end
  end.

Definition forwardToAnthropic (method urlPath : string) (headers : header_map)
    (body : option string) (res : client_response) (events : list upstream_event)
  : upstream_request * (completion relay * relay) :=
  let options := {| opt_hostname := anthropicHost cfg;
                    opt_port := 443;
                    opt_path := urlPath;
                    opt_method := method;
                    opt_headers := forward_headers cfg headers body;
                    written := match body with
                               | Some b => if present body then Some (Buffer_from b) else None
                               | None => None
                               end |} in
  (options, deliver events {| clientRes := res; piping := false |}).

End Forwarder.

(* ===================================================================== *)
(** ** handleRequest *)
(* ===================================================================== *)

(** The inbound request: method, URL, headers and the chunks its body
    arrives in, taken as received in full. *)
Record request : Type := {
  method : string;
  url : string;
  headers : header_map;
  chunks : list (list byte);
}.

(** The object [stats] (without [startTime]). *)
Record stats : Type := {
  requests : Z;
  compressed : Z;
  tokensSaved : prim;
  originalTokens : prim;
}.

Definition initial_stats : stats :=
  {| requests := 0; compressed := 0;
     tokensSaved := PNumber (Num 0); originalTokens := PNumber (Num 0) |}.

(** What one request leaves behind: the counters, the calls made to the
    compression service, whether [processPayload] was called, the request
    sent upstream (none when [forwardToAnthropic] is never reached), and the
    caller's response with the completion of the event listeners. *)
Record handled : Type := {
  stats_after : stats;
  calls_after : trace;
  transformed : bool;
  upstream : option upstream_request;
  outcome : completion relay * relay;
}.

Section FrontEnd.
Context `{rt : Runtime}.
Variable cfg : config.
Variable svc : service.

Definition isMessagesEndpoint (req : request) : bool :=
  includes (url req) "/messages" && String.eqb (method req) "POST".

(** [chunks.length > 0 ? Buffer.concat(chunks).toString("utf-8") : null]. *)
Definition collect_body (req : request) : option string :=
  match chunks req with
  | [] => None
  | _ :: _ => Some (Buffer_toString (concat (chunks req)))
  end.

(** The last statement of [handleRequest]. *)
Definition forward (req : request) (events : list upstream_event)
    (forwarded : option string) (st : stats) (tr : trace) (ran : bool) : handled :=
  let '(options, out) :=
    forwardToAnthropic cfg (method req) (url req) (headers req) forwarded
      fresh_response events in
  {| stats_after := st; calls_after := tr; transformed := ran;
     upstream := Some options; outcome := out |}.

(** The function goes no further than its [await]: the promise awaited
    stays pending (or is rejected, which makes the [await] throw); nothing
    is sent upstream and the caller's response is not touched. *)
Definition stalled (st : stats) (tr : trace) : handled :=
  {| stats_after := st; calls_after := tr; transformed := true;
     upstream := None;
     outcome := deliver [] {| clientRes := fresh_response; piping := false |} |}.

Definition handleRequest (req : request) (events : list upstream_event)
    (st : stats) (tr : trace) : handled :=
  let st := {| requests := requests st + 1; compressed := compressed st;
               tokensSaved := tokensSaved st; originalTokens := originalTokens st |} in
  let buffered := collect_body req in
  match buffered with
  | Some b =>
      if isMessagesEndpoint req && present buffered then
        match processPayload cfg svc b tr with
        | (Fulfilled result, tr') =>
            let st := {| requests := requests st;
                         compressed :=
                           if js_lt (PNumber (Num 0)) (PNumber (result_totalSaved result))
                           then compressed st + 1 else compressed st;
                         tokensSaved :=
                           js_add (tokensSaved st) (PNumber (result_totalSaved result));
                         originalTokens :=
                           js_add (originalTokens st) (result_totalOriginal result) |} in
            forward req events (Some (body result)) st tr' true
        | (Rejected _, tr') => stalled st tr'
        | (Pending, tr') => stalled st tr'
        end
      else forward req events buffered st tr false
  | None => forward req events buffered st tr false
  end.

End FrontEnd.

(* ===================================================================== *)
(** ** A runtime for the integer fragment of JSON *)
(* ===================================================================== *)

(** [JSON.stringify] and [JSON.parse] as ECMA-262 defines them, for texts
    whose numerals are integers without fraction or exponent and whose [\u]
    escapes are not surrogates; [parse] answers [None] outside that
    fragment. *)
Module NodeFragment.

Definition dq : ascii := "034"%char.
Definition backslash : ascii := "092"%char.

(** Writes JSON text with ['] in place of the double quote. *)
Fixpoint js (s : string) : string :=
  match s with
  | EmptyString => EmptyString
  | String c rest => String (if Ascii.eqb c "'" then dq else c) (js rest)
  end.

(** *** JSON.stringify *)

Definition hex_digit (n : Z) : ascii :=
  if n <? 10 then ascii_of_Z (48 + n) else ascii_of_Z (87 + n).

Definition escape_char (c : ascii) (k : string) : string :=
  let b := ascii_code c in
  if b =? 34 then String backslash (String dq k)
  else if b =? 92 then String backslash (String backslash k)
  else if b =? 8 then String backslash (String "b" k)
  else if b =? 9 then String backslash (String "t" k)
  else if b =? 10 then String backslash (String "n" k)
  else if b =? 12 then String backslash (String "f" k)
  else if b =? 13 then String backslash (String "r" k)
  else if b <? 32 then
    String backslash (String "u" (String "0" (String "0"
      (String (hex_digit (b / 16)) (String (hex_digit (b mod 16)) k)))))
  else String c k.

Fixpoint escape (s : string) : string :=
  match s with
  | EmptyString => EmptyString
  | String c rest => escape_char c (escape rest)
  end.

Definition quote (s : string) : string :=
  String dq (escape s +:+ String dq EmptyString).

Fixpoint stringify (v : json) : string :=
  match v with
  | JNull => "null"
  | JBool true => "true"
  | JBool false => "false"
  | JNum n => pretty n
  | JStr s => quote s
  | JArr items => "[" +:+ join_with "," (map stringify items) +:+ "]"
  | JObj fields =>
      "{" +:+
      join_with ","
        (map (fun kv => match kv with (k, x) => quote k +:+ ":" +:+ stringify x end) fields)
      +:+ "}"
  end.

(** *** JSON.parse *)

Definition json_ws (c : ascii) : bool :=
  let b := ascii_code c in
  (b =? 32) || (b =? 9) || (b =? 10) || (b =? 13).

Fixpoint skip_ws (s : string) : string :=
  match s with
  | String c rest => if json_ws c then skip_ws rest else s
  | EmptyString => s
  end.

Definition hex_value (c : ascii) : option Z :=
  let b := ascii_code c in
  if (48 <=? b) && (b <=? 57) then Some (b - 48)
  else if (65 <=? b) && (b <=? 70) then Some (b - 55)
  else if (97 <=? b) && (b <=? 102) then Some (b - 87)
  else None.

(** The UTF-8 bytes of a code point of the BMP that is not a surrogate. *)
Definition utf8_encode (cp : Z) (k : string) : option string :=
  if cp <? 128 then Some (String (ascii_of_Z cp) k)
  else if cp <? 2048 then
    Some (String (ascii_of_Z (192 + cp / 64)) (String (ascii_of_Z (128 + cp mod 64)) k))
  else if (55296 <=? cp) && (cp <=? 57343) then None
  else
    Some (String (ascii_of_Z (224 + cp / 4096))
           (String (ascii_of_Z (128 + (cp / 64) mod 64))
             (String (ascii_of_Z (128 + cp mod 64)) k))).

Definition unescape (e : ascii) : option ascii :=
  let b := ascii_code e in
  if b =? 34 then Some dq
  else if b =? 92 then Some backslash
  else if b =? 47 then Some "/"%char
  else if b =? 98 then Some (ascii_of_Z 8)
  else if b =? 102 then Some (ascii_of_Z 12)
  else if b =? 110 then Some (ascii_of_Z 10)
  else if b =? 114 then Some (ascii_of_Z 13)
  else if b =? 116 then Some (ascii_of_Z 9)
  else None.

(** The characters of a string literal after its opening quote, and the
    text after its closing quote. *)
Fixpoint parse_chars (s : string) : option (string * string) :=
  match s with
  | EmptyString => None
  | String c rest =>
      if Ascii.eqb c dq then Some (EmptyString, rest)
      else if Ascii.eqb c backslash then
        match rest with
        | String e rest' =>
            if Ascii.eqb e "u" then
              match rest' with
              | String h1 (String h2 (String h3 (String h4 rest''))) =>
                  match hex_value h1, hex_value h2, hex_value h3, hex_value h4 with
                  | Some a, Some b, Some c', Some d =>
                      match parse_chars rest'' with
                      | Some (str, after) =>
                          match utf8_encode (4096 * a + 256 * b + 16 * c' + d) str with
                          | Some str' => Some (str', after)
                          | None => None
                          end
                      | None => None
                      end
                  | _, _, _, _ => None
                  end
              | _ => None
              end
            else
              match unescape e with
              | Some ch =>
                  match parse_chars rest' with
                  | Some (str, after) => Some (String ch str, after)
                  | None => None
                  end
              | None => None
              end
        | EmptyString => None
        end
      else if ascii_code c <? 32 then None
      else
        match parse_chars rest with
        | Some (str, after) => Some (String c str, after)
        | None => None
        end
  end.

Fixpoint take_digits (s : string) (acc : Z) : Z * string :=
  match s with
  | String c rest =>
      match digit_of c with
      | Some d => take_digits rest (10 * acc + d)
      | None => (acc, s)
      end
  | EmptyString => (acc, s)
  end.

Definition parse_unsigned (s : string) : option (Z * string) :=
  match s with
  | String c rest =>
      match digit_of c with
      | Some d =>
          let '(z, after) := if d =? 0 then (0, rest) else take_digits rest d in
          match after with
          | String x _ =>
              if Ascii.eqb x "." || Ascii.eqb x "e" || Ascii.eqb x "E"
              then None else Some (z, after)
          | EmptyString => Some (z, after)
          end
      | None => None
      end
  | EmptyString => None
  end.

Definition parse_number (s : string) : option (Z * string) :=
  match s with
  | String c rest =>
      if Ascii.eqb c "-" then
        match parse_unsigned rest with
        | Some (z, after) => Some (- z, after)
        | None => None
        end
      else parse_unsigned s
  | EmptyString => None
  end.

Definition expect (lit : string) (v : json) (s : string) : option (json * string) :=
  if starts_with lit s
  then Some (v, String.substring (String.length lit) (String.length s - String.length lit) s)
  else None.

(** A property name that is an array index: such properties are enumerated
    first, in ascending order. *)
Definition array_index (k : string) : option Z :=
  match k with
  | EmptyString => None
  | String c rest =>
      match digit_of c with
      | Some d =>
          if (d =? 0) && negb (String.eqb rest "") then None
          else
            match take_digits rest d with
            | (z, EmptyString) => if z <? 4294967295 then Some z else None
            | (_, String _ _) => None
            end
      | None => None
      end
  end.

Fixpoint insert_index (i : Z) (k : string) (v : json) (fields : list (string * json))
  : list (string * json) :=
  match fields with
  | [] => [(k, v)]
  | (k', v') :: rest =>
      match array_index k' with
      | Some j => if j <? i then (k', v') :: insert_index i k v rest else (k, v) :: fields
      | None => (k, v) :: fields
      end
  end.

(** Defining the property of a member: a repeated name keeps its place and
    takes the last value. *)
Definition define_property (k : string) (v : json) (fields : list (string * json))
  : list (string * json) :=
  match assoc k fields with
  | Some _ => set_field k v fields
  | None =>
      match array_index k with
      | Some i => insert_index i k v fields
      | None => fields ++ [(k, v)]
      end
  end.

Fixpoint parse_value (fuel : nat) (s : string) : option (json * string) :=
  match fuel with
  | O => None
  | S fuel' =>
      match skip_ws s with
      | EmptyString => None
      | String c rest as t =>
          if Ascii.eqb c "n" then expect "null" JNull t
          else if Ascii.eqb c "t" then expect "true" (JBool true) t
          else if Ascii.eqb c "f" then expect "false" (JBool false) t
          else if Ascii.eqb c dq then
            match parse_chars rest with
            | Some (str, after) => Some (JStr str, after)
            | None => None
            end
          else if Ascii.eqb c "[" then
            match skip_ws rest with
            | String x after =>
                if Ascii.eqb x "]" then Some (JArr [], after)
                else parse_elements fuel' rest []
            | EmptyString => None
            end
          else if Ascii.eqb c "{" then
            match skip_ws rest with
            | String x after =>
                if Ascii.eqb x "}" then Some (JObj [], after)
                else parse_members fuel' rest []
            | EmptyString => None
            end
          else
            match parse_number t with
            | Some (z, after) => Some (JNum z, after)
            | None => None
            end
      end
  end
with parse_elements (fuel : nat) (s : string) (acc : list json) : option (json * string) :=
  match fuel with
  | O => None
  | S fuel' =>
      match parse_value fuel' s with
      | Some (v, after) =>
          match skip_ws after with
          | String x after' =>
              if Ascii.eqb x "," then parse_elements fuel' after' (acc ++ [v])
              else if Ascii.eqb x "]" then Some (JArr (acc ++ [v]), after')
              else None
          | EmptyString => None
          end
      | None => None
      end
  end
with parse_members (fuel : nat) (s : string) (acc : list (string * json))
  : option (json * string) :=
  match fuel with
  | O => None
  | S fuel' =>
      match skip_ws s with
      | String q rest =>
          if Ascii.eqb q dq then
            match parse_chars rest with
            | Some (k, after) =>
                match skip_ws after with
                | String x after' =>
                    if Ascii.eqb x ":" then
                      match parse_value fuel' after' with
                      | Some (v, after'') =>
                          match skip_ws after'' with
                          | String y after''' =>
                              if Ascii.eqb y "," then
                                parse_members fuel' after''' (define_property k v acc)
                              else if Ascii.eqb y "}" then
                                Some (JObj (define_property k v acc), after''')
                              else None
                          | EmptyString => None
                          end
                      | None => None
                      end
                    else None
                | EmptyString => None
                end
            | None => None
            end
          else None
      | EmptyString => None
      end
  end.

Definition parse (s : string) : option json :=
  match parse_value (2 * String.length s + 2) s with
  | Some (v, after) => if String.eqb (skip_ws after) "" then Some v else None
  | None => None
  end.

#[export] Instance node_fragment : Runtime := {|
  JSON_parse := parse;
  JSON_stringify := stringify;
|}.

End NodeFragment.

(* ===================================================================== *)
(** ** The vocabulary of the properties *)
(* ===================================================================== *)

(** [v.k] where it cannot throw: [undefined] on anything but an object. *)
Definition field (v : json) (k : string) : option json :=
  match v with
  | JObj fields => assoc k fields
  | _ => None
  end.



(** The test that lets [compressText] return before any call. *)
Definition skipped (cfg : config) (t : json) : bool :=
  no_credential cfg || negb (truthy (Some t))
  || js_lt (to_primitive (js_length t)) (PNumber (minTextLength cfg)).

(** The call [compressText] issues for a text. *)
Definition call_for (cfg : config) (t : json) : compress_call :=
  {| call_authorization := bearer cfg;
     call_model := "bear-1";
     call_aggressiveness := compressionThreshold cfg;
     call_input := t |}.


(** The token counts a response reports are Numbers, and the output count
    is not negative. *)
Definition counts_sound (response : json) : Prop :=
  (∀ v, field response "output_tokens" = Some v → ∃ z, v = JNum z ∧ 0 ≤ z) ∧
  (∀ v, field response "original_input_tokens" = Some v → ∃ z, v = JNum z).

(** The block is one the inner loop sends to [compressText]. *)
Definition block_eligible (cfg : config) (block : json) : bool :=
  is_string (field block "type") "text" &&
  match field block "text" with
  | Some t => truthy (Some t) && longer_than_min cfg (js_length t)
  | None => false
  end.

(** Two objects with the same properties in the same order, equal in value
    except perhaps under the name [k]. *)
Definition same_except (k : string) (o o' : json) : Prop :=
  ∃ fields fields',
    o = JObj fields ∧ o' = JObj fields' ∧
    Forall2 (λ p q : string * json, p.1 = q.1 ∧ (p.1 ≠ k → p.2 = q.2)) fields fields'.

(** A block after the transformation: an eligible one may differ in its
    [text], any other is the same value. *)
Definition block_preserved (cfg : config) (block block' : json) : Prop :=
  if block_eligible cfg block then same_except "text" block block' else block' = block.

(** A message after the transformation. *)
Definition message_preserved (cfg : config) (msg msg' : json) : Prop :=
  if recognized_role (field msg "role") then
    match field msg "content" with
    | Some (JStr s) =>
        if longer_than_min cfg (js_length (JStr s))
        then same_except "content" msg msg'
        else msg' = msg
    | Some (JArr blocks) =>
        same_except "content" msg msg' ∧
        ∃ blocks', field msg' "content" = Some (JArr blocks') ∧
                   Forall2 (block_preserved cfg) blocks blocks'
    | _ => msg' = msg
    end
  else msg' = msg.

(** A payload after the transformation. *)
Definition payload_preserved (cfg : config) (payload payload' : json) : Prop :=
  match field payload "messages" with
  | Some (JArr msgs) =>
      same_except "messages" payload payload' ∧
      ∃ msgs', field payload' "messages" = Some (JArr msgs') ∧
               Forall2 (message_preserved cfg) msgs msgs'
  | _ => payload' = payload
  end.

(** The decoded payload has no sequence of messages: there is no array
    under [messages]. *)
Definition no_message_sequence (payload : json) : Prop :=
  ∀ msgs, field payload "messages" ≠ Some (JArr msgs).

(** [messages] holds a non-empty string: no sequence of messages, and yet a
    truthy value that [for ... of] iterates. *)
Definition messages_is_text (payload : json) : Prop :=
  ∃ s, field payload "messages" = Some (JStr s) ∧ s ≠ "".

(** A text that the second pass must leave alone: its length does not
    exceed the threshold. *)
Definition short_text (cfg : config) (t : json) : Prop :=
  longer_than_min cfg (js_length t) = false.

(** A message the outer loop has nothing to do with: its role is not one
    of the two recognized, or its content is neither a string nor an array,
    or its content is a string that is not longer than the threshold. *)
Definition ineligible_message (cfg : config) (msg : json) : Prop :=
  recognized_role (field msg "role") = false ∨
  ((∀ s, field msg "content" ≠ Some (JStr s)) ∧
   (∀ blocks, field msg "content" ≠ Some (JArr blocks))) ∨
  (∃ s, field msg "content" = Some (JStr s) ∧ short_text cfg (JStr s)).

(** A block the inner loop has nothing to do with: its type is not
    ["text"], or its text is absent or empty. *)
Definition ineligible_block (block : json) : Prop :=
  is_string (field block "type") "text" = false ∨
  field block "text" = None ∨
  field block "text" = Some (JStr "").

(** The messages after a pass, against those before it: as many, and at
    each place the same message when its string content is short, the same
    block when its text is short. *)
Definition short_texts_kept (cfg : config) (msgs msgs' : list json) : Prop :=
  length msgs' = length msgs ∧
  ∀ i msg, msgs !! i = Some msg →
    ∃ msg', msgs' !! i = Some msg' ∧
      (∀ s, field msg "content" = Some (JStr s) → short_text cfg (JStr s) → msg' = msg) ∧
      (∀ blocks, field msg "content" = Some (JArr blocks) →
         msg' = msg ∨
         ∃ blocks', field msg' "content" = Some (JArr blocks') ∧
           length blocks' = length blocks ∧
           ∀ j block t, blocks !! j = Some block →
             field block "text" = Some t → short_text cfg t →
             blocks' !! j = Some block).

(** The messages after a pass, against those before it: as many, and at
    each place the same message when it is ineligible, the same block when
    the block is ineligible. *)
Definition ineligible_kept (cfg : config) (msgs msgs' : list json) : Prop :=
  length msgs' = length msgs ∧
  ∀ i msg, msgs !! i = Some msg →
    ∃ msg', msgs' !! i = Some msg' ∧
      (ineligible_message cfg msg → msg' = msg) ∧
      (∀ blocks, field msg "content" = Some (JArr blocks) →
         msg' = msg ∨
         ∃ blocks', field msg' "content" = Some (JArr blocks') ∧
           length blocks' = length blocks ∧
           ∀ j block, blocks !! j = Some block → ineligible_block block →
             blocks' !! j = Some block).

(** A payload in which nothing is left to compress and nothing makes the
    walk throw: no entry is [null], every string content of a recognized
    message is short, and no block is eligible. *)
Definition settled_block (cfg : config) (block : json) : Prop :=
  block ≠ JNull ∧ block_eligible cfg block = false.

Definition settled_message (cfg : config) (msg : json) : Prop :=
  msg ≠ JNull ∧
  (recognized_role (field msg "role") = true →
   match field msg "content" with
   | Some (JStr s) => short_text cfg (JStr s)
   | Some (JArr blocks) => Forall (settled_block cfg) blocks
   | _ => True
   end).

Definition settled (cfg : config) (payload : json) : Prop :=
  ∃ msgs, field payload "messages" = Some (JArr msgs) ∧
          Forall (settled_message cfg) msgs.

(** The bytes of the inbound body, and the bytes written upstream. *)
Definition received (req : request) : list byte := concat (chunks req).

Definition forwarded_bytes (h : handled) : list byte :=
  match upstream h with
  | Some options => default [] (written options)
  | None => []
  end.

(** Well-formed UTF-8, as the Unicode standard tabulates it (table 3-7):
    one byte 00..7F; C2..DF and one continuation byte; E0..EF and two, the
    first one in A0..BF after E0 and in 80..9F after ED; F0..F4 and three,
    the first one in 90..BF after F0 and in 80..8F after F4. *)
Definition in_range (lo hi : Z) (b : byte) : bool :=
  (lo <=? byte_code b) && (byte_code b <=? hi).

Fixpoint well_formed_utf8 (bytes : list byte) : bool :=
  match bytes with
  | [] => true
  | b1 :: rest1 =>
      if byte_code b1 <? 128 then well_formed_utf8 rest1
      else if in_range 194 223 b1 then
        match rest1 with
        | b2 :: rest2 => in_range 128 191 b2 && well_formed_utf8 rest2
        | _ => false
        end
      else if in_range 224 239 b1 then
        match rest1 with
        | b2 :: b3 :: rest3 =>
            in_range (if byte_code b1 =? 224 then 160 else 128)
                     (if byte_code b1 =? 237 then 159 else 191) b2
            && in_range 128 191 b3 && well_formed_utf8 rest3
        | _ => false
        end
      else if in_range 240 244 b1 then
        match rest1 with
        | b2 :: b3 :: b4 :: rest4 =>
            in_range (if byte_code b1 =? 240 then 144 else 128)
                     (if byte_code b1 =? 244 then 143 else 191) b2
            && in_range 128 191 b3 && in_range 128 191 b4 && well_formed_utf8 rest4
        | _ => false
        end
      else false
  end.

(** The connection failed: the events hold an ['error'] of the request or
    an abort of the response. *)
Definition transport_failure (events : list upstream_event) : Prop :=
  ∃ ev, ev ∈ events ∧ (ev = ResAborted ∨ ∃ message, ev = ReqError message).

(** The caller was answered with the gateway-failure status and the answer
    is complete. *)
Definition answered_502 (res : client_response) : Prop :=
  (∃ hs, head res = Some (502, hs)) ∧ ended res = true.

(** The text [fragment] of the input is found again in the output. *)
Definition appears_as_in (input output fragment : string) : Prop :=
  includes input fragment = true → includes output fragment = true.

(* ===================================================================== *)
(** ** Scenarios *)
(* ===================================================================== *)

(** Concrete configurations, services and payloads on the runtime
    [node_fragment], on which the properties below are exercised. *)
Module Scenario.
Import NodeFragment.

Fixpoint text_of_length (n : nat) : string :=
  match n with
  | O => EmptyString
  | S n' => String "a" (text_of_length n')
  end.

(** [TTC_KEY] set, every other variable left to its default. *)
Definition with_key : config := default_config (Some "ttc-key").

(** [TTC_KEY] not set. *)
Definition without_key : config := default_config None.

(** A service that ends every call with the same data. *)
Definition answering (data : string) : service := fun _ _ => NetEnd data.

Definition refusing : service := fun _ _ => NetError "connect ECONNREFUSED".

Definition timing_out : service := fun _ _ => NetTimeout.

(** A service whose responses start and are cut before their end. *)
Definition cutting : service := fun _ _ => NetCut.

Definition improving : string :=
  js "{'output':'short text','output_tokens':80,'original_input_tokens':200}".



(** A payload with one user message whose content is [n] characters. *)
Definition one_message (n : nat) : string :=
  js "{'model':'claude','messages':[{'role':'user','content':'"
  +:+ text_of_length n +:+ js "'}],'max_tokens':1024}".



Definition one_message_payload (content : string) : json :=
  JObj [("model", JStr "claude");
        ("messages", JArr [JObj [("role", JStr "user"); ("content", JStr content)]]);
        ("max_tokens", JNum 1024)].

(** A text that is not JSON, a payload without messages, and a payload
    whose second message is [null]. *)
Definition not_json : string := "POST body".

Definition no_messages : string := js "{'model':'claude', 'stream':true}".

Definition null_after_long : string :=
  js "{'messages':[{'role':'user','content':'" +:+ text_of_length 200
  +:+ js "'},null]}".

(** A payload whose untouched message is written with an escaped solidus. *)
Definition escaped_solidus : string :=
  js "{'messages':[{'role':'system','content':'a" +:+ String backslash "/b"
  +:+ js "'}]}".

Definition escaped_message : string :=
  js "{'role':'system','content':'a" +:+ String backslash "/b" +:+ js "'}".

(** A payload with an unknown field, a system message, an image block, a
    short text block, a long text block with a field of its own, and a
    short string content. *)
Definition image_block : json :=
  JObj [("type", JStr "image"); ("source", JObj [("data", JStr "AAAA")])].

Definition short_block : json :=
  JObj [("type", JStr "text"); ("text", JStr "hi")].

Definition long_block (t : string) : json :=
  JObj [("type", JStr "text"); ("text", JStr t);
        ("cache_control", JObj [("type", JStr "ephemeral")])].

Definition system_message : json :=
  JObj [("role", JStr "system"); ("content", JStr (text_of_length 200))].

Definition short_message : json :=
  JObj [("role", JStr "assistant"); ("content", JStr "ok")].

Definition mixed_messages : list json :=
  [system_message;
   JObj [("role", JStr "user");
         ("content", JArr [image_block; short_block; long_block (text_of_length 200)])];
   short_message].

Definition mixed_payload : json :=
  JObj [("model", JStr "claude"); ("messages", JArr mixed_messages);
        ("temperature", JNum 1)].

Definition mixed : string := stringify mixed_payload.

(** Requests: a message submission and an upload whose body is one byte
    that is not UTF-8. *)
Definition post_messages (bodyStr : string) : request :=
  {| method := "POST"; url := "/v1/messages";
     headers := {["content-type" := HStr "application/json"]};
     chunks := [list_byte_of_string bodyStr] |}.

Definition post_upload : request :=
  {| method := "POST"; url := "/v1/files";
     headers := {["content-type" := HStr "application/octet-stream"]};
     chunks := [[Byte.xff]] |}.

(** The upstream answers and ends; it answers and the connection is lost
    before the end; the request fails after the answer arrived. *)
Definition upstream_ok : list upstream_event :=
  [Response 200 ∅; ResData (list_byte_of_string "{}"); ResEnd].

Definition upstream_aborted : list upstream_event :=
  [Response 200 ∅; ResData (list_byte_of_string "{"); ResAborted].

Definition upstream_late_error : list upstream_event :=
  [Response 200 ∅; ReqError "socket hang up"].

(** Scenario B of the specification: a message of 500 characters, a
    service that answers 80 tokens for 200; and the payload it yields passed
    through a second time. *)
Definition compressed_body : string :=
  js "{'model':'claude','messages':[{'role':'user','content':'short text'}],'max_tokens':1024}".

Definition first_pass : promise payload_result * trace :=
  processPayload with_key (answering improving) (one_message 500) [].

Definition second_pass : promise payload_result * trace :=
  processPayload with_key (answering improving) compressed_body first_pass.2.

Definition handled_submission : handled :=
  handleRequest with_key (answering improving) (post_messages (one_message 500))
    upstream_ok initial_stats [].

Definition handled_upload : handled :=
  handleRequest with_key (answering improving) post_upload upstream_ok initial_stats [].

(** A request to another endpoint, with a body that is UTF-8. *)
Definition post_batch : request :=
  {| method := "POST"; url := "/v1/batches";
     headers := {["content-type" := HStr "application/json"]};
     chunks := [list_byte_of_string (js "{'requests':"); list_byte_of_string "[]}"] |}.

Definition handled_batch : handled :=
  handleRequest with_key (answering improving) post_batch upstream_ok initial_stats [].

End Scenario.

(* ===================================================================== *)
(** ** log *)
(* ===================================================================== *)

(** Where the standard output of the server goes: to a stream of its own
    (the terminal, when the server runs in the foreground), or to the log
    file itself.  [startDaemon] of [bin/cli.js] opens
    [$HOME/claude-compressor.log] for appending and spawns the server with
    that file as its standard output, and [config.logFile] is the same file
    unless [LOG_FILE] names another one. *)
Inductive stdout_target : Type :=
| OwnStream
| TheLogFile.

(** What [log] writes to: the lines printed on a standard output of its
    own, and the content of the log file. *)
Record journal : Type := {
  console : list string;
  logfile : string;
}.

Definition newline : string := String "010"%char EmptyString.

(** [console.log(line)]. *)
Definition console_log (target : stdout_target) (line : string) (j : journal)
  : journal :=
  match target with
  | OwnStream => {| console := console j ++ [line]; logfile := logfile j |}
  | TheLogFile => {| console := console j; logfile := logfile j +:+ line +:+ newline |}
  end.

(** [try { fs.appendFileSync(config.logFile, data) } catch (e) {}], where
    [writable] tells whether the append succeeds. *)
Definition appendFileSync (writable : bool) (data : string) (j : journal) : journal :=
  if writable then {| console := console j; logfile := logfile j +:+ data |} else j.

(** [log(message)] at the instant whose ISO form is [timestamp]. *)
Definition log (target : stdout_target) (timestamp : string) (writable : bool)
    (message : string) (j : journal) : journal :=
  let line := "[" +:+ timestamp +:+ "] " +:+ message in
  appendFileSync writable (line +:+ newline) (console_log target line j).

(** One call of [log]: the instant, whether the file can be written, and
    the message. *)
Record log_call : Type := {
  at_time : string;
  file_writable : bool;
  message_logged : string;
}.

(** Calls of [log] one after the other. *)
Fixpoint log_all (target : stdout_target) (calls : list log_call) (j : journal)
  : journal :=
  match calls with
  | [] => j
  | c :: rest =>
      log_all target rest
        (log target (at_time c) (file_writable c) (message_logged c) j)
  end.

(** The line of a call. *)
Definition line_of (c : log_call) : string :=
  "[" +:+ at_time c +:+ "] " +:+ message_logged c.

(** The lines a call adds to the log file: one when the standard output is
    the log file, and one when the append succeeds. *)
Definition file_lines (target : stdout_target) (c : log_call) : list string :=
  match target with
  | OwnStream => []
  | TheLogFile => [line_of c]
  end ++ (if file_writable c then [line_of c] else []).

(** The text of some lines in a file, each one ended by a line feed. *)
Fixpoint file_text (lines : list string) : string :=
  match lines with
  | [] => EmptyString
  | l :: rest => l +:+ newline +:+ file_text rest
  end.

(* ===================================================================== *)
(** ** bin/cli.js *)
(* ===================================================================== *)

Module Cli.

(** What the script does after reading its arguments. *)
Inductive action : Type :=
| ShowHelp
| CheckStatus
| StopDaemon
| StartDaemon
| StartServer.

(** [args.includes(flag)]. *)
Definition args_include (args : list string) (flag : string) : bool :=
  existsb (String.eqb flag) args.

(** The [if ... else if] chain at the end of the script. *)
Definition main (args : list string) : action :=
  if args_include args "--help" || args_include args "-h" then ShowHelp
  else if args_include args "--status" || args_include args "-s" then CheckStatus
  else if args_include args "--stop" then StopDaemon
  else if args_include args "--daemon" || args_include args "-d" then StartDaemon
  else StartServer.

(** The options the script knows. *)
Definition known_flags : list string :=
  ["--help"; "-h"; "--status"; "-s"; "--stop"; "--daemon"; "-d"].

(** How [execSync(command)] ends: it returns what the command printed, or
    throws (the command failed or could not be run). *)
Inductive exec_result : Type :=
| Printed (stdout : string)
| Failed.

(** What [stopDaemon] leaves behind: the commands it ran, in order, and the
    lines it printed. *)
Record stopped : Type := {
  commands : list string;
  printed : list string;
}.

Definition stopped_line (PORT : string) : string :=
  "✅ Stopped process on port " +:+ PORT.

Definition no_process_line (PORT : string) : string :=
  "ℹ️  No process found on port " +:+ PORT.

(** [stopDaemon()], for the port [PORT], the platform's
    [String.prototype.trim] and the outcome of each command. *)
Definition stopDaemon (PORT : string) (trim : string -> string)
    (execSync : string -> exec_result) : stopped :=
  let lsof := "lsof -ti:" +:+ PORT in
  match execSync lsof with
  | Printed out =>
      let result := trim out in
      if negb (String.eqb result "") then
        let kill := "kill " +:+ result in
        match execSync kill with
        | Printed _ => {| commands := [lsof; kill]; printed := [stopped_line PORT] |}
        | Failed => {| commands := [lsof; kill]; printed := [no_process_line PORT] |}
        end
      else {| commands := [lsof]; printed := [no_process_line PORT] |}
  | Failed => {| commands := [lsof]; printed := [no_process_line PORT] |}
  end.

(** White space of the ASCII range removed at both ends, as [trim] does on
    the output of a command. *)
Definition trim_ascii (s : string) : string :=
  String.rev (trim_left (String.rev (trim_left s))).

End Cli.

(* ===================================================================== *)
(** ** More vocabulary: the calls of a walk, the totals, the relay *)
(* ===================================================================== *)

(** The texts [compressText] sends to the service when it is called on
    [t]: [t] itself unless the call is skipped. *)
Definition sent_text (cfg : config) (t : json) : list json :=
  if skipped cfg t then [] else [t].

(** The texts a turn of the inner loop sends. *)
Definition block_texts (cfg : config) (block : json) : list json :=
  if block_eligible cfg block then
    match field block "text" with
    | Some t => sent_text cfg t
    | None => []
    end
  else [].

(** The texts a turn of the outer loop sends, in the order of the blocks. *)
Definition message_texts (cfg : config) (msg : json) : list json :=
  if recognized_role (field msg "role") then
    match field msg "content" with
    | Some (JStr s) =>
        if longer_than_min cfg (js_length (JStr s)) then sent_text cfg (JStr s) else []
    | Some (JArr blocks) => concat (map (block_texts cfg) blocks)
    | _ => []
    end
  else [].

(** The texts of a payload that are sent, in document order. *)
Definition payload_texts (cfg : config) (payload : json) : list json :=
  match field payload "messages" with
  | Some (JArr msgs) => concat (map (message_texts cfg) msgs)
  | _ => []
  end.

(** The calls made between the traces [tr] and [tr'] by a step that was
    expected to send the texts [expected] and completed as [c]: the texts
    sent are the first of those expected, and all of them when the step
    completed normally. *)
Definition calls_made {A} (cfg : config) (expected : list json) (c : promise A)
    (tr tr' : trace) : Prop :=
  ∃ texts, tr' = tr ++ map (call_for cfg) texts ∧
           texts `prefix_of` expected ∧
           (∀ a, c = Fulfilled a → texts = expected).

(** Every response the service may give reports token counts that are
    Numbers, with an output count that is not negative. *)
Definition sound_service `{rt : Runtime} (svc : service) : Prop :=
  ∀ tr call data response,
    svc tr call = NetEnd data → JSON_parse data = Some response →
    counts_sound response.

(** The service never delivers a response, in full or in part: every call
    ends with an error or a timeout, or is not sent at all. *)
Definition silent_service (svc : service) : Prop :=
  ∀ tr call, svc tr call ≠ NetCut ∧ ∀ data, svc tr call ≠ NetEnd data.



(** The characters Node accepts in a header value: the tab, the printable
    ASCII characters and U+0080 to U+00FF, which UTF-8 writes as C2 or C3
    and one continuation byte; [https.request] throws on any other. *)
Fixpoint header_value_ok (s : string) : bool :=
  match s with
  | EmptyString => true
  | String c rest =>
      let b := ascii_code c in
      if (b =? 9) || ((32 <=? b) && (b <=? 126)) then header_value_ok rest
      else if (b =? 194) || (b =? 195) then
        match rest with
        | String c' rest' =>
            (128 <=? ascii_code c') && (ascii_code c' <=? 191) && header_value_ok rest'
        | EmptyString => false
        end
      else false
  end.

(** Totals that are Numbers with 0 <= saved <= original. *)
Definition totals_sound (saved : prim) (original : prim) : Prop :=
  ∃ s o, saved = PNumber (Num s) ∧ original = PNumber (Num o) ∧ 0 ≤ s ≤ o.

(** The same, on the accumulators of the loop. *)
Definition totals_ok (acc : totals) : Prop :=
  totals_sound (PNumber (totalSaved acc)) (totalOriginal acc).

(** The events of an upstream response relayed in full, and of one still
    under way. *)
Definition response_events (status : Z) (hs : header_map) (body_chunks : list (list byte))
  : list upstream_event :=
  Response status hs :: map ResData body_chunks.

(** The caller's response [after] continues [before]: a head that was sent
    is the same, the chunks sent are still there, first and in order, and a
    response that was ended is ended. *)
Definition response_extends (before after : client_response) : Prop :=
  (∀ h, head before = Some h → head after = Some h) ∧
  sent before `prefix_of` sent after ∧
  (ended before = true → ended after = true).

Module Cases.
Import NodeFragment Scenario.

(** A payload whose second message has a [null] block after a long one. *)
Definition two_long : string :=
  stringify
    (JObj [("messages",
            JArr [JObj [("role", JStr "user"); ("content", JStr (text_of_length 160))];
                  JObj [("role", JStr "assistant");
                        ("content", JArr [long_block (text_of_length 170); short_block])]])]).

(** A service whose responses carry sound counts. *)
Definition sound_answer : service := answering improving.

Definition running_stats : stats :=
  {| requests := 7; compressed := 3;
     tokensSaved := PNumber (Num 40); originalTokens := PNumber (Num 90) |}.

Definition post_count_tokens (bodyStr : string) : request :=
  {| method := "POST"; url := "/v1/messages/count_tokens?beta=true";
     headers := {["content-length" := HStr "3"]};
     chunks := [list_byte_of_string bodyStr] |}.

Definition get_models : request :=
  {| method := "GET"; url := "/v1/models";
     headers := {["content-length" := HStr "0"]};
     chunks := [] |}.

(** A credential pasted with its line feed, and [https.request] as Node
    has it: the call is refused when the [Authorization] value holds a
    character that is not allowed, and goes to the network otherwise. *)
Definition pasted_key : config := default_config (Some ("ttc-key" +:+ newline)).

Definition node_https (network : service) : service :=
  fun tr call =>
    if header_value_ok (call_authorization call) then network tr call
    else NetThrow (js "Invalid character in header content ['Authorization']").

(** A payload whose [messages] is a text, written with spaces. *)
Definition text_messages : string := js "{ 'messages' : 'hello' }".

(** A body that is UTF-8 and not ASCII, sent to another endpoint in two
    chunks that split a character. *)
Definition accented : list byte :=
  [Byte.x63; Byte.x61; Byte.x66; Byte.xc3; Byte.xa9; Byte.x20;
   Byte.xe2; Byte.x82; Byte.xac; Byte.x20; Byte.xf0; Byte.x9f; Byte.x98; Byte.x80].

Definition post_accented : request :=
  {| method := "POST"; url := "/v1/files";
     headers := {["content-type" := HStr "text/plain"]};
     chunks := [take 4 accented; drop 4 accented] |}.

(** The shell of a machine where process 4242 listens on the port. *)
Definition shell_listening (command : string) : Cli.exec_result :=
  if String.eqb command "lsof -ti:8877" then Cli.Printed ("4242" +:+ newline)
  else if String.eqb command "kill 4242" then Cli.Printed ""
  else Cli.Failed.

End Cases.

(* ===================================================================== *)
(** ** Properties *)
(* ===================================================================== *)

(** *** Objects *)

Lemma get_field (v : json) (k : string) :
  v ≠ JNull → get v k = Normal (field v k).
Proof. destruct v; simpl; congruence. Qed.

Lemma null_or_not (v : json) : v = JNull ∨ v ≠ JNull.
Proof. destruct v; auto; right; discriminate. Qed.

Lemma get_null (k : string) : ∃ e, get JNull k = Throw e.
Proof. simpl. eauto. Qed.

Lemma is_string_true (v : option json) (s : string) :
  is_string v s = true ↔ v = Some (JStr s).
Proof.
  destruct v as [[]|]; simpl; try (split; [discriminate | congruence]).
  rewrite String.eqb_eq. split; congruence.
Qed.

Lemma is_string_object (v : json) (k s : string) :
  is_string (field v k) s = true → ∃ fields, v = JObj fields.
Proof. destruct v; simpl; try discriminate. eauto. Qed.

Lemma set_field_same_except (k : string) (v : json) (fields : list (string * json)) :
  is_Some (assoc k fields) →
  Forall2 (λ p q : string * json, p.1 = q.1 ∧ (p.1 ≠ k → p.2 = q.2))
    fields (set_field k v fields).
Proof.
  induction fields as [|[k' v'] rest IH]; simpl.
  - intros [? ?]. discriminate.
  - destruct (String.eqb k k') eqn:E.
    + intros _. apply String.eqb_eq in E. subst k'. constructor.
      * simpl. split; [reflexivity | congruence].
      * apply Forall2_same_length_lookup. split; [reflexivity|].
        intros i x y Hx Hy. rewrite Hx in Hy. injection Hy as ->. auto.
    + intros H. constructor; [simpl; auto | auto].
Qed.

Lemma set_same_except (o : json) (k : string) (v : json) :
  is_Some (field o k) → same_except k o (set o k v).
Proof.
  destruct o; simpl; try (intros [? ?]; discriminate).
  intros H. exists fields, (set_field k v fields). auto using set_field_same_except.
Qed.

Lemma same_except_field (k k' : string) (o o' : json) :
  same_except k o o' → k' ≠ k → field o' k' = field o k'.
Proof.
  intros (fields & fields' & -> & -> & HF) Hne. simpl.
  induction HF as [|[k1 v1] [k2 v2] rest rest' [Hk Hv] _ IH]; [reflexivity|].
  simpl in *. subst k2. destruct (String.eqb k' k1) eqn:E; [|exact IH].
  apply String.eqb_eq in E. subst k1. f_equal. symmetry. auto.
Qed.

Lemma assoc_set_field (k : string) (v : json) (fields : list (string * json)) :
  assoc k (set_field k v fields) = Some v.
Proof.
  induction fields as [|[k' v'] rest IH]; simpl.
  - rewrite String.eqb_refl. reflexivity.
  - destruct (String.eqb k k') eqn:E; simpl.
    + rewrite String.eqb_refl. reflexivity.
    + rewrite E. exact IH.
Qed.

Lemma field_set (o : json) (k : string) (v : json) :
  is_Some (field o k) → field (set o k v) k = Some v.
Proof.
  destruct o; simpl; try (intros [? ?]; discriminate).
  intros _. apply assoc_set_field.
Qed.

Lemma set_field_id (k : string) (v : json) (fields : list (string * json)) :
  assoc k fields = Some v → set_field k v fields = fields.
Proof.
  induction fields as [|[k' v'] rest IH]; simpl; [discriminate|].
  destruct (String.eqb k k') eqn:E.
  - apply String.eqb_eq in E. congruence.
  - intros H. f_equal. auto.
Qed.

Lemma set_id (o : json) (k : string) (v : json) :
  field o k = Some v → set o k v = o.
Proof.
  destruct o; simpl; try discriminate.
  intros H. f_equal. auto using set_field_id.
Qed.

(** *** Arithmetic of the totals *)

Lemma js_add_numbers (a b : jsnum) :
  js_add (PNumber a) (PNumber b) = PNumber (num_add a b).
Proof. destruct a, b; reflexivity. Qed.

Lemma num_add_zero (a : jsnum) : num_add a (Num 0) = a.
Proof. destruct a; simpl; [reflexivity|]. f_equal. lia. Qed.

(** *** The monad of the walk *)

Lemma run_bind {A B} (m : proc A) (k : A → proc B) (tr : trace) :
  run (m ≫= k) tr =
  match run m tr with
  | (Fulfilled a, tr') => run (k a) tr'
  | (Rejected e, tr') => (Rejected e, tr')
  | (Pending, tr') => (Pending, tr')
  end.
Proof. reflexivity. Qed.

Lemma run_ret {A} (a : A) (tr : trace) : run (mret a) tr = (Fulfilled a, tr).
Proof. reflexivity. Qed.

Lemma run_lift {A} (c : completion A) (tr : trace) : run (lift c) tr = (settle c, tr).
Proof. reflexivity. Qed.

Lemma run_await {A} (f : trace → promise A * trace) (tr : trace) :
  run (await f) tr = f tr.
Proof. reflexivity. Qed.

(** Rewriting a run of the walk one step further. *)
Create Rewrite HintDb walk.
#[global] Hint Rewrite @run_bind @run_ret @run_lift @run_await : walk.

Ltac step_walk := autorewrite with walk; cbn [from_option fst snd].

Section Walk.
Context `{rt : Runtime}.
Variable cfg : config.
Variable svc : service.

(** *** compressText *)

Lemma compressText_skipped (t : json) (tr : trace) :
  skipped cfg t = true → compressText cfg svc t tr = (Fulfilled (fallback t), tr).
Proof. unfold compressText, skipped. intros ->. reflexivity. Qed.

Lemma compressText_called (t : json) (tr : trace) :
  skipped cfg t = false →
  compressText cfg svc t tr =
  match svc tr (call_for cfg t) with
  | NetThrow message => (Rejected message, tr)
  | NetCut => (Pending, tr ++ [call_for cfg t])
  | NetEnd data =>
      (Fulfilled match on_end t data with
                 | Normal r => r
                 | Throw _ => fallback t
                 end, tr ++ [call_for cfg t])
  | _ => (Fulfilled (fallback t), tr ++ [call_for cfg t])
  end.
Proof.
  unfold compressText, skipped, call_for. intros ->.
  destruct (svc tr _) as [| |data| |]; try reflexivity.
  destruct (on_end t data); reflexivity.
Qed.

(** Every call appends at most one entry to the trace. *)
Lemma compressText_trace (t : json) (tr : trace) :
  (compressText cfg svc t tr).2 = tr ∨
  (compressText cfg svc t tr).2 = tr ++ [call_for cfg t].
Proof.
  destruct (skipped cfg t) eqn:E.
  - left. rewrite compressText_skipped by done. reflexivity.
  - rewrite compressText_called by done.
    destruct (svc tr (call_for cfg t)); auto.
Qed.

(** What the ['end'] handler resolves to, read off the decoded response. *)
Lemma on_end_cases (t : json) (data : string) (r : compression) :
  on_end t data = Normal r →
  r = fallback t ∨
  ∃ response out,
    JSON_parse data = Some response ∧
    field response "output" = Some out ∧ truthy (Some out) = true ∧
    js_lt (to_primitive (field response "output_tokens"))
          (to_primitive (field response "original_input_tokens")) = true ∧
    r = {| text := out;
           saved := js_sub (to_primitive (field response "original_input_tokens"))
                           (to_primitive (field response "output_tokens"));
           original := field response "original_input_tokens" |}.
Proof.
  unfold on_end. destruct (JSON_parse data) as [response|]; simpl; [|discriminate].
  destruct response; simpl; try discriminate;
    try (intros ?; simplify_eq; left; reflexivity).
  destruct (assoc "output" fields) as [out|] eqn:Eo; simpl;
    [|intros ?; simplify_eq; auto].
  destruct (truthy (Some out)) eqn:Et; simpl in *; rewrite Et;
    [|intros ?; simplify_eq; auto].
  destruct (js_lt _ _) eqn:El; intros ?; simplify_eq; [|auto].
  right. exists (JObj fields), out. simpl. auto.
Qed.



(** *** The inner loop *)

Lemma process_block_null (acc : totals) (tr : trace) :
  ∃ e, run (process_block cfg svc JNull acc) tr = (Rejected e, tr).
Proof. eexists. reflexivity. Qed.

Lemma process_block_skip (block : json) (acc : totals) (tr : trace) :
  block ≠ JNull → block_eligible cfg block = false →
  run (process_block cfg svc block acc) tr = (Fulfilled (block, acc), tr).
Proof.
  intros Hn. unfold block_eligible, process_block.
  rewrite run_bind, run_lift, get_field by done. cbn [settle].
  destruct (is_string (field block "type") "text"); simpl; [|reflexivity].
  rewrite get_field by done. cbn [settle].
  destruct (field block "text") as [t|]; simpl; [|reflexivity].
  intros ->. reflexivity.
Qed.

(** A turn on an eligible block is the call for its text followed by the
    two updates. *)
Lemma process_block_compress (block : json) (acc : totals) (tr : trace) :
  block_eligible cfg block = true →
  ∃ t, field block "text" = Some t ∧
       run (process_block cfg svc block acc) tr =
       match compressText cfg svc t tr with
       | (Fulfilled r, tr') =>
           (Fulfilled (set block "text" (text r), add_result acc r), tr')
       | (Rejected e, tr') => (Rejected e, tr')
       | (Pending, tr') => (Pending, tr')
       end.
Proof.
  unfold block_eligible. intros H. apply andb_true_iff in H as [Hty H].
  destruct (is_string_object _ _ _ Hty) as [fields ->].
  destruct (field (JObj fields) "text") as [t|] eqn:Et; [|discriminate].
  exists t. split; [reflexivity|].
  unfold process_block. rewrite run_bind, run_lift. simpl get. cbv iota beta.
  cbn [settle].
  change (assoc "type" fields) with (field (JObj fields) "type"). rewrite Hty.
  rewrite run_bind, run_lift. simpl get. cbv iota beta. cbn [settle].
  change (assoc "text" fields) with (field (JObj fields) "text"). rewrite Et, H.
  rewrite run_bind, run_await.
  destruct (compressText cfg svc t tr) as [[r|e|] tr']; reflexivity.
Qed.

Lemma process_block_preserved (block block' : json) (acc acc' : totals) (tr tr' : trace) :
  run (process_block cfg svc block acc) tr = (Fulfilled (block', acc'), tr') →
  block_preserved cfg block block'.
Proof.
  unfold block_preserved. destruct (block_eligible cfg block) eqn:E.
  - destruct (process_block_compress block acc tr E) as (t & Ht & ->).
    destruct (compressText cfg svc t tr) as [[r|e|] tr1]; intros ?; simplify_eq.
    apply set_same_except. rewrite Ht. eauto.
  - destruct (null_or_not block) as [->|Hn].
    + destruct (process_block_null acc tr) as [e ->]. discriminate.
    + rewrite process_block_skip by done. intros ?; simplify_eq. reflexivity.
Qed.

(** *** for ... of *)

Lemma for_of_Forall2 (turn : json → totals → proc (json * totals))
    (R : json → json → Prop) :
  (∀ x acc tr x' acc' tr',
     run (turn x acc) tr = (Fulfilled (x', acc'), tr') → R x x') →
  ∀ items acc tr items' acc' tr',
    run (for_of turn items acc) tr = (Fulfilled (items', acc'), tr') →
    Forall2 R items items'.
Proof.
  intros Hturn. induction items as [|x rest IH]; intros acc tr items' acc' tr';
    cbn [for_of].
  - rewrite run_ret. intros ?; simplify_eq. constructor.
  - rewrite run_bind.
    destruct (run (turn x acc) tr) as [[[x1 acc1]|e|] tr1] eqn:E1; try discriminate.
    rewrite run_bind.
    destruct (run (for_of turn rest acc1) tr1) as [[[rest1 acc2]|e|] tr2] eqn:E2;
      try discriminate.
    rewrite run_ret. intros ?; simplify_eq. constructor; eauto.
Qed.

(** A loop whose turns change nothing changes nothing. *)
Lemma for_of_idle (turn : json → totals → proc (json * totals))
    (items : list json) (acc : totals) (tr : trace) :
  Forall (λ x, run (turn x acc) tr = (Fulfilled (x, acc), tr)) items →
  run (for_of turn items acc) tr = (Fulfilled (items, acc), tr).
Proof.
  induction 1 as [|x rest Hx _ IH]; cbn [for_of]; [reflexivity|].
  rewrite run_bind, Hx, run_bind, IH. reflexivity.
Qed.

(** *** The outer loop *)

Lemma process_message_null (acc : totals) (tr : trace) :
  ∃ e, run (process_message cfg svc JNull acc) tr = (Rejected e, tr).
Proof. eexists. reflexivity. Qed.

Lemma process_message_other_role (msg : json) (acc : totals) (tr : trace) :
  msg ≠ JNull → recognized_role (field msg "role") = false →
  run (process_message cfg svc msg acc) tr = (Fulfilled (msg, acc), tr).
Proof.
  intros Hn Hr. unfold process_message. step_walk.
  rewrite get_field by done. cbn [settle]. rewrite Hr. reflexivity.
Qed.

Lemma recognized_object (msg : json) :
  recognized_role (field msg "role") = true → ∃ fields, msg = JObj fields.
Proof.
  unfold recognized_role. intros H. apply orb_true_iff in H as [H|H];
    eauto using is_string_object.
Qed.

Lemma process_message_recognized (msg : json) (acc : totals) (tr : trace) :
  recognized_role (field msg "role") = true →
  run (process_message cfg svc msg acc) tr =
  match field msg "content" with
  | Some (JStr s) =>
      if longer_than_min cfg (js_length (JStr s)) then
        match compressText cfg svc (JStr s) tr with
        | (Fulfilled r, tr') =>
            (Fulfilled (set msg "content" (text r), add_result acc r), tr')
        | (Rejected e, tr') => (Rejected e, tr')
        | (Pending, tr') => (Pending, tr')
        end
      else (Fulfilled (msg, acc), tr)
  | Some (JArr blocks) =>
      match run (for_of (process_block cfg svc) blocks acc) tr with
      | (Fulfilled (blocks', acc'), tr') =>
          (Fulfilled (set msg "content" (JArr blocks'), acc'), tr')
      | (Rejected e, tr') => (Rejected e, tr')
      | (Pending, tr') => (Pending, tr')
      end
  | _ => (Fulfilled (msg, acc), tr)
  end.
Proof.
  intros Hr. destruct (recognized_object msg Hr) as [fields ->].
  unfold process_message. rewrite run_bind, run_lift. simpl get. cbv iota beta.
  cbn [settle].
  change (assoc "role" fields) with (field (JObj fields) "role"). rewrite Hr.
  rewrite run_bind, run_lift. simpl get. cbv iota beta. cbn [settle].
  change (assoc "content" fields) with (field (JObj fields) "content").
  destruct (field (JObj fields) "content") as [[| | |s|blocks|]|]; try reflexivity.
  - destruct (longer_than_min cfg (js_length (JStr s))); [|reflexivity].
    rewrite run_bind, run_await.
    destruct (compressText cfg svc (JStr s) tr) as [[r|e|] tr']; reflexivity.
  - rewrite run_bind.
    destruct (run (for_of (process_block cfg svc) blocks acc) tr) as [[[b a]|e|] tr'];
      reflexivity.
Qed.

Lemma process_message_preserved (msg msg' : json) (acc acc' : totals) (tr tr' : trace) :
  run (process_message cfg svc msg acc) tr = (Fulfilled (msg', acc'), tr') →
  message_preserved cfg msg msg'.
Proof.
  unfold message_preserved. destruct (recognized_role (field msg "role")) eqn:Hr.
  - rewrite process_message_recognized by done.
    destruct (field msg "content") as [[| | |s|blocks|]|] eqn:Ec;
      try (intros ?; simplify_eq; reflexivity).
    + destruct (longer_than_min cfg (js_length (JStr s)));
        [|intros ?; simplify_eq; reflexivity].
      destruct (compressText cfg svc (JStr s) tr) as [[r|e|] tr1];
        intros ?; simplify_eq.
      apply set_same_except. rewrite Ec. eauto.
    + destruct (run (for_of (process_block cfg svc) blocks acc) tr)
        as [[[blocks1 acc1]|e|] tr1] eqn:E; intros ?; simplify_eq.
      split; [apply set_same_except; rewrite Ec; eauto|].
      exists blocks1. split; [apply field_set; rewrite Ec; eauto|].
      eapply for_of_Forall2; [|exact E].
      intros; eapply process_block_preserved; eauto.
  - destruct (null_or_not msg) as [->|Hn].
    + destruct (process_message_null acc tr) as [e ->]. discriminate.
    + rewrite process_message_other_role by done. intros ?; simplify_eq. reflexivity.
Qed.

(** *** The whole transformation *)

Lemma processPayload_try_unparseable (bodyStr : string) (tr : trace) :
  JSON_parse bodyStr = None →
  ∃ e, run (processPayload_try cfg svc bodyStr) tr = (Rejected e, tr).
Proof.
  intros H. unfold processPayload_try. step_walk. rewrite H. simpl. eauto.
Qed.

Lemma processPayload_try_parsed (bodyStr : string) (payload : json) (tr : trace) :
  JSON_parse bodyStr = Some payload →
  run (processPayload_try cfg svc bodyStr) tr =
  match payload with
  | JNull => (Rejected "Cannot read properties of null (reading 'messages')", tr)
  | _ =>
      if negb (truthy (field payload "messages"))
      then (Fulfilled (unchanged bodyStr), tr)
      else
        match field payload "messages" with
        | Some (JArr msgs) =>
            match run (for_of (process_message cfg svc) msgs no_totals) tr with
            | (Fulfilled (msgs', acc), tr') =>
                (Fulfilled {| body := JSON_stringify (set payload "messages" (JArr msgs'));
                              result_totalSaved := totalSaved acc;
                              result_totalOriginal := totalOriginal acc |}, tr')
            | (Rejected e, tr') => (Rejected e, tr')
            | (Pending, tr') => (Pending, tr')
            end
        | Some (JStr _) =>
            (Fulfilled {| body := JSON_stringify payload;
                          result_totalSaved := Num 0;
                          result_totalOriginal := PNumber (Num 0) |}, tr)
        | _ => (Rejected "body.messages is not iterable", tr)
        end
  end.
Proof.
  intros H. unfold processPayload_try. rewrite run_bind, run_lift, H. simpl from_option.
  cbn [settle]. cbv iota beta. rewrite run_bind, run_lift.
  destruct payload; try reflexivity.
  simpl get. cbn [settle]. cbv iota beta. simpl field.
  destruct (truthy (assoc "messages" fields)); simpl negb; cbv iota; [|reflexivity].
  destruct (assoc "messages" fields) as [[| | |s|msgs|]|]; try reflexivity.
  rewrite run_bind.
  destruct (run (for_of (process_message cfg svc) msgs no_totals) tr)
    as [[[msgs1 acc1]|e|] tr1]; reflexivity.
Qed.

End Walk.

(* ===================================================================== *)
(** ** The Compression Client *)
(* ===================================================================== *)

Section CompressionClient.
Context `{rt : Runtime}.
Variable cfg : config.
Variable svc : service.





End CompressionClient.

(* ===================================================================== *)
(** ** The Payload Transformer *)
(* ===================================================================== *)

Section PayloadTransformer.
Context `{rt : Runtime}.
Variable cfg : config.
Variable svc : service.


(** The promise of [processPayload] is never rejected. *)
Lemma processPayload_fate (bodyStr : string) (tr : trace) :
  (processPayload cfg svc bodyStr tr).1 = Pending ∨
  ∃ result, (processPayload cfg svc bodyStr tr).1 = Fulfilled result.
Proof.
  unfold processPayload.
  destruct (run (processPayload_try cfg svc bodyStr) tr) as [[r|e|] tr']; eauto.
Qed.

Lemma processPayload_unparseable (bodyStr : string) (tr : trace) :
  JSON_parse bodyStr = None →
  processPayload cfg svc bodyStr tr = (Fulfilled (unchanged bodyStr), tr).
Proof.
  intros Hp. unfold processPayload.
  destruct (processPayload_try_unparseable cfg svc bodyStr tr Hp) as [e ->]. reflexivity.
Qed.

(** C3 (as amended).  If the raw body does not decode, or the decoded
    payload has no sequence of messages and its [messages] is not a
    non-empty string, or an exception is thrown in the course of the
    transformation, [processPayload] resolves to the raw body it was given
    with totalSaved = 0 and totalOriginal = 0.  When [messages] is a
    non-empty string the payload is decoded and encoded again, with zero
    totals and without a call.  The promise is never rejected. *)
Theorem processPayload_passes_malformed_through (bodyStr : string) (tr : trace) :
  (JSON_parse bodyStr = None ∨
   (∃ payload, JSON_parse bodyStr = Some payload ∧
               no_message_sequence payload ∧ ¬ messages_is_text payload) ∨
   (∃ e, (run (processPayload_try cfg svc bodyStr) tr).1 = Rejected e) →
   (processPayload cfg svc bodyStr tr).1 = Fulfilled (unchanged bodyStr)) ∧
  (∀ payload,
     JSON_parse bodyStr = Some payload → messages_is_text payload →
     processPayload cfg svc bodyStr tr =
     (Fulfilled {| body := JSON_stringify payload;
                   result_totalSaved := Num 0;
                   result_totalOriginal := PNumber (Num 0) |}, tr)) ∧
  (∀ e, (processPayload cfg svc bodyStr tr).1 ≠ Rejected e).
Proof.
  split; [|split].
  - unfold processPayload. intros [Hp | [(payload & Hp & Hno & Htext) | [e He]]].
    + destruct (processPayload_try_unparseable cfg svc bodyStr tr Hp) as [e ->].
      reflexivity.
    + rewrite (processPayload_try_parsed cfg svc bodyStr payload tr Hp).
      unfold no_message_sequence, messages_is_text in *.
      destruct payload; try reflexivity.
      destruct (field (JObj fields) "messages") as [[|b|n|s|msgs|]|];
        try reflexivity.
      * destruct b; reflexivity.
      * destruct (truthy (Some (JNum n))); reflexivity.
      * destruct (String.eqb s "") eqn:E.
        -- apply String.eqb_eq in E. subst s. reflexivity.
        -- apply String.eqb_neq in E. destruct Htext. eauto.
      * destruct (Hno msgs eq_refl).
    + destruct (run (processPayload_try cfg svc bodyStr) tr) as [[r|e'|] tr'];
        try discriminate.
      reflexivity.
  - intros payload Hp (s0 & Hm & Hne). unfold processPayload.
    rewrite (processPayload_try_parsed cfg svc bodyStr payload tr Hp).
    destruct payload; try discriminate. rewrite Hm. cbn [truthy].
    apply String.eqb_neq in Hne. rewrite Hne. reflexivity.
  - intros e. destruct (processPayload_fate bodyStr tr) as [-> | [r ->]]; discriminate.
Qed.

(** *** What the walk leaves alone *)

Lemma processPayload_messages_frame (bodyStr : string) (payload : json) (msgs : list json) (tr : trace) :
  JSON_parse bodyStr = Some payload →
  field payload "messages" = Some (JArr msgs) →
  (processPayload cfg svc bodyStr tr).1 = Pending ∨
  (processPayload cfg svc bodyStr tr).1 = Fulfilled (unchanged bodyStr) ∨
  ∃ msgs' result,
    (processPayload cfg svc bodyStr tr).1 = Fulfilled result ∧
    body result = JSON_stringify (set payload "messages" (JArr msgs')) ∧
    Forall2 (message_preserved cfg) msgs msgs'.
Proof.
  intros Hp Hm. unfold processPayload.
  rewrite (processPayload_try_parsed cfg svc bodyStr payload tr Hp).
  destruct payload; try discriminate. rewrite Hm. cbn [truthy negb].
  destruct (run (for_of (process_message cfg svc) msgs no_totals) tr)
    as [[[msgs' acc]|e|] tr'] eqn:E; [|right; left; reflexivity|left; reflexivity].
  right. right. eexists msgs', _. split; [reflexivity|]. split; [reflexivity|].
  eapply for_of_Forall2; [|exact E].
  intros; eapply process_message_preserved; eauto.
Qed.

Lemma short_block_not_eligible (block t : json) :
  field block "text" = Some t → short_text cfg t → block_eligible cfg block = false.
Proof.
  unfold block_eligible, short_text. intros -> ->.
  rewrite andb_false_r. apply andb_false_r.
Qed.

Lemma ineligible_block_not_eligible (block : json) :
  ineligible_block block → block_eligible cfg block = false.
Proof.
  unfold block_eligible. intros [-> | [-> | ->]]; try reflexivity;
    apply andb_false_r.
Qed.

Lemma block_preserved_same (block block' : json) :
  block_preserved cfg block block' → block_eligible cfg block = false → block' = block.
Proof. unfold block_preserved. intros H E. rewrite E in H. exact H. Qed.

Lemma message_preserved_ineligible (msg msg' : json) :
  message_preserved cfg msg msg' → ineligible_message cfg msg → msg' = msg.
Proof.
  unfold message_preserved, ineligible_message, short_text.
  destruct (recognized_role (field msg "role")); [|auto].
  intros H [Hr | [[Hs Hb] | (s & Hc & Hshort)]]; [discriminate| |].
  - destruct (field msg "content") as [[| | |s|blocks|]|]; auto.
    + destruct (Hs s eq_refl).
    + destruct (Hb blocks eq_refl).
  - rewrite Hc, Hshort in H. exact H.
Qed.

Lemma message_preserved_blocks (msg msg' : json) (blocks : list json) :
  message_preserved cfg msg msg' →
  field msg "content" = Some (JArr blocks) →
  msg' = msg ∨
  ∃ blocks', field msg' "content" = Some (JArr blocks') ∧
             Forall2 (block_preserved cfg) blocks blocks'.
Proof.
  unfold message_preserved. intros H Hc. rewrite Hc in H.
  destruct (recognized_role (field msg "role")); [|auto].
  destruct H as [_ H]. auto.
Qed.

Lemma processPayload_frame (bodyStr : string) (payload : json) (tr : trace) :
  JSON_parse bodyStr = Some payload →
  (processPayload cfg svc bodyStr tr).1 = Pending ∨
  ∃ result,
    (processPayload cfg svc bodyStr tr).1 = Fulfilled result ∧
    (body result = bodyStr ∨
     ∃ payload',
       body result = JSON_stringify payload' ∧
       payload_preserved cfg payload payload').
Proof.
  intros Hp. unfold payload_preserved.
  destruct (field payload "messages") as [[| | |s|msgs|]|] eqn:Hm;
    try (right; unfold processPayload;
         rewrite (processPayload_try_parsed cfg svc bodyStr payload tr Hp);
         destruct payload; try discriminate; rewrite ?Hm;
         cbn [truthy negb]; repeat case_match; simplify_eq; cbn [fst];
         eexists; (split; [reflexivity|]); cbn [body unchanged];
         first [by left | by right; eauto]).
  destruct (processPayload_messages_frame bodyStr payload msgs tr Hp Hm)
    as [-> | [-> | (msgs' & result & -> & Hb & HF)]];
    [left; reflexivity | right; eexists; split; [reflexivity|]; left; reflexivity |].
  right. exists result. split; [reflexivity|].
  right. exists (set payload "messages" (JArr msgs')). split; [exact Hb|].
  split; [apply set_same_except; rewrite Hm; eauto|].
  exists msgs'. split; [apply field_set; rewrite Hm; eauto | exact HF].
Qed.

(** C4 (as amended).  Re-encoding after the transformation preserves, as
    decoded values, everything that is not eligible for compression: the
    body [processPayload] resolves to is either the raw body itself or the
    encoding of a payload that has the properties of the decoded input in
    the same order, with the same value under every name but [messages];
    the same number of messages, each one identical unless it is eligible
    and then equal under every name but [content]; and in an array content
    the same number of blocks, each one identical unless it is an eligible
    text block and then equal under every name but [text].  The promise is
    not rejected; it stays pending only when a call to the service does. *)
Theorem processPayload_preserves_values (bodyStr : string) (payload : json) (tr : trace) :
  JSON_parse bodyStr = Some payload →
  (processPayload cfg svc bodyStr tr).1 = Pending ∨
  ∃ result,
    (processPayload cfg svc bodyStr tr).1 = Fulfilled result ∧
    (body result = bodyStr ∨
     ∃ payload',
       body result = JSON_stringify payload' ∧
       payload_preserved cfg payload payload' ∧
       (∀ k, k ≠ "messages" → field payload' k = field payload k)).
Proof.
  intros Hp.
  destruct (processPayload_frame bodyStr payload tr Hp)
    as [H | (result & Hr & [H | (payload' & H & Hpres)])];
    [left; exact H | right; exists result; split; [exact Hr | left; exact H] |].
  right. exists result. split; [exact Hr|].
  right. exists payload'. split; [exact H|]. split; [exact Hpres|].
  intros k Hk. unfold payload_preserved in Hpres.
  destruct (field payload "messages") as [[| | |s|msgs|]|]; try (subst; reflexivity).
  destruct Hpres as [Hsame _]. eauto using same_except_field.
Qed.

Lemma process_message_settled (msg : json) (acc : totals) (tr : trace) :
  settled_message cfg msg →
  run (process_message cfg svc msg acc) tr = (Fulfilled (msg, acc), tr).
Proof.
  intros [Hn Hs]. destruct (recognized_role (field msg "role")) eqn:Hr;
    [|auto using process_message_other_role].
  rewrite process_message_recognized by done. specialize (Hs eq_refl).
  destruct (field msg "content") as [[| | |s|blocks|]|] eqn:Hc; try reflexivity.
  - unfold short_text in Hs. rewrite Hs. reflexivity.
  - rewrite (for_of_idle (process_block cfg svc) blocks acc tr).
    + rewrite (set_id msg "content" (JArr blocks) Hc). reflexivity.
    + eapply Forall_impl; [exact Hs|]. intros block [Hb He].
      auto using process_block_skip.
Qed.

(** A settled payload is a fixed point: it is encoded again as it is, with
    zero totals and without a call. *)
Lemma processPayload_settled (bodyStr : string) (payload : json) (tr : trace) :
  JSON_parse bodyStr = Some payload → settled cfg payload →
  processPayload cfg svc bodyStr tr =
  (Fulfilled {| body := JSON_stringify payload;
                result_totalSaved := Num 0;
                result_totalOriginal := PNumber (Num 0) |}, tr).
Proof.
  intros Hp (msgs & Hm & Hall). unfold processPayload.
  rewrite (processPayload_try_parsed cfg svc bodyStr payload tr Hp).
  destruct payload; try discriminate. rewrite Hm. cbn [truthy negb].
  rewrite (for_of_idle (process_message cfg svc) msgs no_totals tr).
  - rewrite (set_id (JObj fields) "messages" (JArr msgs) Hm). reflexivity.
  - eapply Forall_impl; [exact Hall|]. intros msg Hs.
    auto using process_message_settled.
Qed.

(** C9.  A second pass over an already transformed payload, with the same
    settings, does not corrupt it: it resolves to the body it was given, or
    to the encoding of a payload that preserves the one the first pass
    produced, in which every message whose string content is not longer than
    the minimum threshold is the same message, and every block whose text is
    not longer than the threshold is the same block.  When nothing in the
    payload the first pass produced is longer than the threshold, the second
    pass makes no call and resolves to that payload encoded again, with zero
    totals. *)
Theorem second_pass_leaves_short_texts (bodyStr : string) (tr : trace)
    (produced : payload_result) :
  let first := processPayload cfg svc bodyStr tr in
  first.1 = Fulfilled produced →
  let second := processPayload cfg svc (body produced) first.2 in
  (second.1 = Pending ∨
   ∃ result,
     second.1 = Fulfilled result ∧
     (body result = body produced ∨
      ∃ compressed again,
        JSON_parse (body produced) = Some compressed ∧
        body result = JSON_stringify again ∧
        payload_preserved cfg compressed again ∧
        ∀ msgs, field compressed "messages" = Some (JArr msgs) →
          ∃ msgs', field again "messages" = Some (JArr msgs') ∧
                   short_texts_kept cfg msgs msgs')) ∧
  (∀ compressed,
     JSON_parse (body produced) = Some compressed → settled cfg compressed →
     second = (Fulfilled {| body := JSON_stringify compressed;
                            result_totalSaved := Num 0;
                            result_totalOriginal := PNumber (Num 0) |}, first.2)).
Proof.
  intros first _ second. subst second.
  split; [|intros compressed Hp Hs; apply processPayload_settled; assumption].
  destruct (JSON_parse (body produced)) as [compressed|] eqn:Hp.
  2:{ right. eexists. rewrite (processPayload_unparseable (body produced) first.2 Hp).
      split; [reflexivity|]. left. reflexivity. }
  destruct (processPayload_frame (body produced) compressed first.2 Hp)
    as [H | (result & Hr & [H | (again & H & Hpres)])];
    [left; exact H | right; exists result; split; [exact Hr | left; exact H] |].
  right. exists result. split; [exact Hr|].
  right. exists compressed, again. split; [reflexivity|].
  split; [exact H|]. split; [exact Hpres|].
  intros msgs Hm. unfold payload_preserved in Hpres. rewrite Hm in Hpres.
  destruct Hpres as (_ & msgs' & Hm' & HF). exists msgs'. split; [exact Hm'|].
  split; [symmetry; eapply Forall2_length; exact HF|].
  intros i msg Hi. destruct (Forall2_lookup_l _ _ _ _ _ HF Hi) as (msg' & Hi' & Hmp).
  exists msg'. split; [exact Hi'|]. split.
  - intros s Hc Hs. apply (message_preserved_ineligible msg msg' Hmp).
    right. right. eauto.
  - intros blocks Hc.
    destruct (message_preserved_blocks msg msg' blocks Hmp Hc) as [-> | (blocks' & Hc' & HB)];
      [left; reflexivity|].
    right. exists blocks'. split; [exact Hc'|].
    split; [symmetry; eapply Forall2_length; exact HB|].
    intros j block t Hj Ht Hs.
    destruct (Forall2_lookup_l _ _ _ _ _ HB Hj) as (block' & Hj' & Hbp).
    rewrite Hj'. f_equal. apply block_preserved_same; [exact Hbp|].
    eapply short_block_not_eligible; eauto.
Qed.

Lemma recognized_role_exactly (role : option json) :
  recognized_role role = true ↔
  role = Some (JStr "user") ∨ role = Some (JStr "assistant").
Proof. unfold recognized_role. rewrite orb_true_iff, !is_string_true. tauto. Qed.

Lemma process_message_ineligible (msg : json) (acc : totals) (tr : trace) :
  msg ≠ JNull → ineligible_message cfg msg →
  run (process_message cfg svc msg acc) tr = (Fulfilled (msg, acc), tr).
Proof.
  intros Hn Hin. destruct (recognized_role (field msg "role")) eqn:Hr;
    [|auto using process_message_other_role].
  rewrite process_message_recognized by done.
  destruct Hin as [Hr' | [[Hs Hb] | (s & Hc & Hshort)]]; [congruence| |].
  - destruct (field msg "content") as [[| | |s|blocks|]|]; try reflexivity.
    + destruct (Hs s eq_refl).
    + destruct (Hb blocks eq_refl).
  - rewrite Hc. unfold short_text in Hshort. rewrite Hshort. reflexivity.
Qed.

(** C10.  The recognized roles are exactly ["user"] and ["assistant"].  A
    turn of the loop on a message whose role is another value, whose content
    is neither a string nor an array, or whose string content is not longer
    than the threshold, completes normally and leaves the message, the
    totals and the network as they were; so does a turn of the inner loop on
    a block whose type is not ["text"] or whose text is absent or empty.  In
    the body [processPayload] resolves to, each such message and block is in
    its place, unchanged. *)
Theorem transform_skips_ineligible (bodyStr : string) (payload : json)
    (msgs : list json) (tr : trace) :
  JSON_parse bodyStr = Some payload →
  field payload "messages" = Some (JArr msgs) →
  (∀ role, recognized_role role = true ↔
           role = Some (JStr "user") ∨ role = Some (JStr "assistant")) ∧
  (∀ msg acc tr0, msg ≠ JNull → ineligible_message cfg msg →
     run (process_message cfg svc msg acc) tr0 = (Fulfilled (msg, acc), tr0)) ∧
  (∀ block acc tr0, block ≠ JNull → ineligible_block block →
     run (process_block cfg svc block acc) tr0 = (Fulfilled (block, acc), tr0)) ∧
  ((processPayload cfg svc bodyStr tr).1 = Pending ∨
   (processPayload cfg svc bodyStr tr).1 = Fulfilled (unchanged bodyStr) ∨
   ∃ msgs' result,
     (processPayload cfg svc bodyStr tr).1 = Fulfilled result ∧
     body result = JSON_stringify (set payload "messages" (JArr msgs')) ∧
     ineligible_kept cfg msgs msgs').
Proof.
  intros Hp Hm. split; [exact recognized_role_exactly|].
  split; [exact process_message_ineligible|].
  split.
  { intros block acc tr0 Hn Hin.
    auto using process_block_skip, ineligible_block_not_eligible. }
  destruct (processPayload_messages_frame bodyStr payload msgs tr Hp Hm)
    as [H | [H | (msgs' & result & Hr & H & HF)]];
    [left; exact H | right; left; exact H |].
  right. right. exists msgs', result. split; [exact Hr|]. split; [exact H|].
  split; [symmetry; eapply Forall2_length; exact HF|].
  intros i msg Hi. destruct (Forall2_lookup_l _ _ _ _ _ HF Hi) as (msg' & Hi' & Hmp).
  exists msg'. split; [exact Hi'|]. split.
  - exact (message_preserved_ineligible msg msg' Hmp).
  - intros blocks Hc.
    destruct (message_preserved_blocks msg msg' blocks Hmp Hc) as [-> | (blocks' & Hc' & HB)];
      [left; reflexivity|].
    right. exists blocks'. split; [exact Hc'|].
    split; [symmetry; eapply Forall2_length; exact HB|].
    intros j block Hj Hin.
    destruct (Forall2_lookup_l _ _ _ _ _ HB Hj) as (block' & Hj' & Hbp).
    rewrite Hj'. f_equal.
    auto using block_preserved_same, ineligible_block_not_eligible.
Qed.

End PayloadTransformer.

(* ===================================================================== *)
(** ** The Upstream Forwarder *)
(* ===================================================================== *)

Section UpstreamForwarder.
Context `{rt : Runtime}.
Variable cfg : config.

(** C8.  The headers sent upstream are the inbound headers except that
    [host] is the upstream host name, [connection], [keep-alive] and
    [transfer-encoding] are absent, and [content-length] is the byte length
    of the body when there is a body; every other header is as received. *)
Theorem forwardToAnthropic_headers (method urlPath : string) (headers : header_map)
    (forwarded : option string) (res : client_response)
    (events : list upstream_event) (name : string) :
  opt_headers (forwardToAnthropic cfg method urlPath headers forwarded res events).1 !! name =
  if decide (name = "host") then Some (HStr (anthropicHost cfg))
  else if decide (name ∈ ["connection"; "keep-alive"; "transfer-encoding"]) then None
  else if decide (name = "content-length" ∧ present forwarded = true)
       then Some (HNum (Buffer_byteLength (default "" forwarded)))
       else headers !! name.
Proof.
  cbn [forwardToAnthropic fst opt_headers]. unfold forward_headers.
  destruct (decide (name = "host")) as [-> | Hhost].
  { rewrite !lookup_delete_ne by discriminate.
    destruct forwarded as [b|]; [destruct (present (Some b))|];
      rewrite ?lookup_insert_ne by discriminate; apply lookup_insert_eq. }
  destruct (decide (name ∈ ["connection"; "keep-alive"; "transfer-encoding"]))
    as [Hhop | Hhop].
  { rewrite !elem_of_cons, elem_of_nil in Hhop.
    destruct Hhop as [-> | [-> | [-> | []]]].
    - rewrite !lookup_delete_ne by discriminate. apply lookup_delete_eq.
    - rewrite lookup_delete_ne by discriminate. apply lookup_delete_eq.
    - apply lookup_delete_eq. }
  rewrite !elem_of_cons, elem_of_nil in Hhop.
  rewrite !lookup_delete_ne by (intros <-; tauto).
  destruct (decide (name = "content-length" ∧ present forwarded = true))
    as [[-> Hp] | Hcl].
  { destruct forwarded as [b|]; [|discriminate]. rewrite Hp. apply lookup_insert_eq. }
  assert (Hother : (<["host" := HStr (anthropicHost cfg)]> headers) !! name = headers !! name)
    by (apply lookup_insert_ne; congruence).
  destruct forwarded as [b|]; [|exact Hother].
  destruct (present (Some b)) eqn:Hp; [|exact Hother].
  rewrite lookup_insert_ne; [exact Hother|]. intros <-. apply Hcl. auto.
Qed.

(** C7 (as amended).  When the outbound request reports an error before
    any response of the upstream has been relayed, the caller receives the
    status 502 with no header and the body
    [{"error":"Bad Gateway","message":...}], and the response is ended. *)
Theorem error_before_response_answers_502 (method urlPath : string)
    (headers : header_map) (forwarded : option string) (message : string) :
  let answer := {| head := Some (502, ∅);
                   sent := [Buffer_from (bad_gateway message)];
                   ended := true |} in
  (forwardToAnthropic cfg method urlPath headers forwarded fresh_response
     [ReqError message]).2
  = (Normal {| clientRes := answer; piping := false |},
     {| clientRes := answer; piping := false |})
  ∧ answered_502 answer.
Proof.
  split; [reflexivity|]. split; [eexists|]; reflexivity.
Qed.

End UpstreamForwarder.

(* ===================================================================== *)
(** ** The Proxy Front End *)
(* ===================================================================== *)

Section Utf8.

Lemma list_byte_of_string_cons (c : ascii) (s : string) :
  list_byte_of_string (String c s) = byte_of_ascii c :: list_byte_of_string s.
Proof. reflexivity. Qed.

Lemma list_byte_of_string_app (a b : string) :
  list_byte_of_string (a +:+ b) = list_byte_of_string a ++ list_byte_of_string b.
Proof.
  induction a as [|c a IH]; [reflexivity|].
  change (String c a +:+ b) with (String c (a +:+ b)).
  rewrite !list_byte_of_string_cons, IH. reflexivity.
Qed.

(** The decoder takes a continuation byte that is in the range it waits
    for: the last one completes the sequence, which is copied. *)
Lemma utf8_decode_last (b : byte) (rest : list byte) (p : partial) :
  in_range (lower p) (upper p) b = true → needed p = 1%nat →
  utf8_decode (b :: rest) (Some p) =
  seen p +:+ String (ascii_of_byte b) (utf8_decode rest None).
Proof.
  unfold in_range. intros Hr Hn. cbn [utf8_decode]. cbv zeta.
  rewrite Hr, Hn. reflexivity.
Qed.

Lemma utf8_decode_more (b : byte) (rest : list byte) (p : partial) (n : nat) :
  in_range (lower p) (upper p) b = true → needed p = S (S n) →
  utf8_decode (b :: rest) (Some p) =
  utf8_decode rest
    (Some {| seen := seen p +:+ String (ascii_of_byte b) EmptyString;
             needed := S n; lower := 128; upper := 191 |}).
Proof.
  unfold in_range. intros Hr Hn. cbn [utf8_decode]. cbv zeta.
  rewrite Hr, Hn. reflexivity.
Qed.

Lemma utf8_decode_lead (b : byte) (rest : list byte) :
  utf8_decode (b :: rest) None =
  let c := byte_code b in
  let ch := ascii_of_byte b in
  if c <? 128 then String ch (utf8_decode rest None)
  else if in_range 194 223 b then
    utf8_decode rest
      (Some {| seen := String ch EmptyString; needed := 1; lower := 128; upper := 191 |})
  else if in_range 224 239 b then
    utf8_decode rest
      (Some {| seen := String ch EmptyString; needed := 2;
               lower := if c =? 224 then 160 else 128;
               upper := if c =? 237 then 159 else 191 |})
  else if in_range 240 244 b then
    utf8_decode rest
      (Some {| seen := String ch EmptyString; needed := 3;
               lower := if c =? 240 then 144 else 128;
               upper := if c =? 244 then 143 else 191 |})
  else replacement +:+ utf8_decode rest None.
Proof. reflexivity. Qed.

Lemma utf8_round_trip_bounded (n : nat) (bytes : list byte) :
  (length bytes ≤ n)%nat → well_formed_utf8 bytes = true →
  list_byte_of_string (utf8_decode bytes None) = bytes.
Proof.
  revert bytes. induction n as [|n IH]; intros [|b1 rest1] Hlen Hwf;
    try reflexivity; cbn [length] in Hlen; [lia|].
  cbn [well_formed_utf8] in Hwf. rewrite utf8_decode_lead. cbv zeta.
  destruct (byte_code b1 <? 128).
  { rewrite list_byte_of_string_cons, byte_of_ascii_of_byte, IH by (auto; lia).
    reflexivity. }
  destruct (in_range 194 223 b1).
  { destruct rest1 as [|b2 rest2]; [discriminate|].
    apply andb_true_iff in Hwf as [H2 Hwf]. cbn [length] in Hlen.
    rewrite utf8_decode_last by (cbn; auto). cbn [seen].
    rewrite list_byte_of_string_app, !list_byte_of_string_cons. cbn [app].
    rewrite !byte_of_ascii_of_byte, IH by (auto; lia). reflexivity. }
  destruct (in_range 224 239 b1).
  { destruct rest1 as [|b2 [|b3 rest3]]; try discriminate.
    apply andb_true_iff in Hwf as [Hwf' Hwf].
    apply andb_true_iff in Hwf' as [H2 H3]. cbn [length] in Hlen.
    rewrite (utf8_decode_more _ _ _ 0) by (cbn; auto).
    rewrite utf8_decode_last by (cbn; auto). cbn [seen].
    rewrite !list_byte_of_string_app, !list_byte_of_string_cons. cbn [app].
    rewrite !byte_of_ascii_of_byte, IH by (auto; lia). reflexivity. }
  destruct (in_range 240 244 b1); [|discriminate].
  destruct rest1 as [|b2 [|b3 [|b4 rest4]]]; try discriminate.
  apply andb_true_iff in Hwf as [Hwf' Hwf].
  apply andb_true_iff in Hwf' as [Hwf' H4].
  apply andb_true_iff in Hwf' as [H2 H3]. cbn [length] in Hlen.
  rewrite (utf8_decode_more _ _ _ 1) by (cbn; auto).
  rewrite (utf8_decode_more _ _ _ 0) by (cbn; auto).
  rewrite utf8_decode_last by (cbn; auto). cbn [seen].
  rewrite !list_byte_of_string_app, !list_byte_of_string_cons. cbn [app].
  rewrite !byte_of_ascii_of_byte, IH by (auto; lia). reflexivity.
Qed.

(** Decoding well-formed UTF-8 and encoding the text again gives back the
    bytes. *)
Lemma utf8_round_trip (bytes : list byte) :
  well_formed_utf8 bytes = true → Buffer_from (Buffer_toString bytes) = bytes.
Proof. apply (utf8_round_trip_bounded (length bytes)). reflexivity. Qed.

End Utf8.

Section ProxyFrontEnd.
Context `{rt : Runtime}.
Variable cfg : config.
Variable svc : service.

Lemma Buffer_from_nil (s : string) : Buffer_from s = [] → s = "".
Proof. destruct s; [reflexivity | discriminate]. Qed.

Lemma isMessagesEndpoint_spec (req : request) :
  isMessagesEndpoint req = true ↔
  method req = "POST" ∧ includes (url req) "/messages" = true.
Proof.
  unfold isMessagesEndpoint. rewrite andb_true_iff, String.eqb_eq. tauto.
Qed.

(** The bytes [forwardToAnthropic] writes for a body. *)
Lemma forward_bytes (req : request) (events : list upstream_event)
    (forwarded : option string) (st : stats) (tr : trace) (ran : bool) :
  forwarded_bytes (forward cfg req events forwarded st tr ran) =
  Buffer_from (default "" forwarded).
Proof.
  unfold forward, forwarded_bytes. cbn.
  destruct forwarded as [b|]; [|reflexivity]. cbn.
  destruct (String.eqb b "") eqn:E; [|reflexivity].
  apply String.eqb_eq in E. subst b. reflexivity.
Qed.

(** C5 (as amended).  The Payload Transformer is invoked if and only if the
    method is POST, the path contains [/messages] and the buffered body is
    not empty.  In that case, once the transformer has returned, the body
    sent upstream is its output, its totals are added to the lifetime
    totals, and the compressed-request counter is incremented exactly when
    totalSaved > 0; as long as it has not returned, nothing is sent upstream
    and the totals are untouched.  For every other request no compression
    call is made, the totals are untouched, and the body sent upstream is
    the UTF-8 decoding of the bytes received, encoded again: exactly what
    was received whenever those bytes are well-formed UTF-8. *)
Theorem handleRequest_transforms_eligible (req : request)
    (events : list upstream_event) (st : stats) (tr : trace) :
  let h := handleRequest cfg svc req events st tr in
  let returned := processPayload cfg svc (default "" (collect_body req)) tr in
  (transformed h = true ↔
   method req = "POST" ∧ includes (url req) "/messages" = true ∧
   present (collect_body req) = true) ∧
  (transformed h = true →
   calls_after h = returned.2 ∧
   ((returned.1 = Pending ∧ upstream h = None ∧
     tokensSaved (stats_after h) = tokensSaved st ∧
     originalTokens (stats_after h) = originalTokens st ∧
     compressed (stats_after h) = compressed st) ∨
    ∃ result,
      returned.1 = Fulfilled result ∧
      is_Some (upstream h) ∧
      forwarded_bytes h = Buffer_from (body result) ∧
      tokensSaved (stats_after h) =
        js_add (tokensSaved st) (PNumber (result_totalSaved result)) ∧
      originalTokens (stats_after h) =
        js_add (originalTokens st) (result_totalOriginal result) ∧
      compressed (stats_after h) =
        if js_lt (PNumber (Num 0)) (PNumber (result_totalSaved result))
        then compressed st + 1 else compressed st)) ∧
  (transformed h = false →
   calls_after h = tr ∧
   tokensSaved (stats_after h) = tokensSaved st ∧
   originalTokens (stats_after h) = originalTokens st ∧
   compressed (stats_after h) = compressed st ∧
   is_Some (upstream h) ∧
   forwarded_bytes h = Buffer_from (default "" (collect_body req)) ∧
   (well_formed_utf8 (received req) = true → forwarded_bytes h = received req)).
Proof.
  cbv zeta. unfold handleRequest.
  assert (Hround : well_formed_utf8 (received req) = true →
            Buffer_from (default "" (collect_body req)) = received req).
  { unfold collect_body, received. destruct (chunks req) as [|chunk rest];
      [reflexivity|]. apply utf8_round_trip. }
  destruct (collect_body req) as [b|] eqn:Hb.
  2:{ rewrite forward_bytes. cbn.
      split; [split; [discriminate | intros (_ & _ & ?); discriminate]|].
      split; [discriminate|]. intros _. repeat split; eauto. }
  destruct (isMessagesEndpoint req && present (Some b)) eqn:He.
  - apply andb_true_iff in He as [Hm Hp]. apply isMessagesEndpoint_spec in Hm.
    cbn [default from_option id].
    destruct (processPayload_fate cfg svc b tr) as [Hf | [result Hf]];
      destruct (processPayload cfg svc b tr) as [[r|e|] tr'];
      cbn [fst] in Hf; simplify_eq; rewrite ?forward_bytes; cbn;
      (split; [split; [intros _; tauto | reflexivity]|]);
      (split; [|discriminate]); intros _; (split; [reflexivity|]).
    + left. auto.
    + right. exists result. repeat split; eauto.
  - rewrite forward_bytes. cbn.
    split.
    { split; [discriminate|]. intros (Hm & Hu & Hp).
      assert (isMessagesEndpoint req = true) as Hi by (apply isMessagesEndpoint_spec; auto).
      rewrite Hi in He. cbn in Hp, He. congruence. }
    split; [discriminate|]. intros _. repeat split; eauto.
Qed.

(** C6.  Every inbound request increases the lifetime request counter by
    exactly 1, whatever its method, path and body, whatever the compression
    service and the upstream do. *)
Theorem handleRequest_counts_request (req : request) (events : list upstream_event)
    (st : stats) (tr : trace) :
  requests (stats_after (handleRequest cfg svc req events st tr)) = requests st + 1.
Proof.
  unfold handleRequest.
  destruct (collect_body req) as [b|]; [|reflexivity].
  destruct (isMessagesEndpoint req && present (Some b)); [|reflexivity].
  destruct (processPayload cfg svc b tr) as [[r|e|] tr']; reflexivity.
Qed.

End ProxyFrontEnd.

(* ===================================================================== *)
(** ** The scenarios, evaluated *)
(* ===================================================================== *)

Section Evaluated.
Import NodeFragment Scenario Cases.

(** *** The coercions and the runtime on examples *)

Example js_lt_numbers : js_lt (PNumber (Num 80)) (PNumber (Num 200)) = true.
Proof. reflexivity. Qed.

Example js_lt_undefined : js_lt PUndefined (PNumber (Num 200)) = false.
Proof. reflexivity. Qed.

Example js_add_concat :
  js_add (PNumber (Num 0)) (PString "200") = PString "0200".
Proof. vm_compute. reflexivity. Qed.

Example string_to_number_signed : string_to_number " -42 " = Num (-42).
Proof. vm_compute. reflexivity. Qed.

Example parse_object :
  parse (js "{'messages': [ {'role':'user', 'content': null} ], 'n': -12}")
  = Some (JObj [("messages", JArr [JObj [("role", JStr "user"); ("content", JNull)]]);
                ("n", JNum (-12))]).
Proof. vm_compute. reflexivity. Qed.

Example parse_index_order :
  parse (js "{'b': 1, '10': 2, '9': 3, 'b': 4}")
  = Some (JObj [("9", JNum 3); ("10", JNum 2); ("b", JNum 4)]).
Proof. vm_compute. reflexivity. Qed.

Example parse_rejects_trailing : parse "[1,2] x" = None.
Proof. vm_compute. reflexivity. Qed.

Example stringify_object :
  stringify (JObj [("a", JArr [JNum 1; JNull]); ("b", JStr (js "x'y"))])
  = js "{'a':[1,null],'b':'x\'y'}".
Proof. vm_compute. reflexivity. Qed.

Example decode_ascii :
  utf8_decode (list_byte_of_string "abc") None = "abc".
Proof. vm_compute. reflexivity. Qed.

Example decode_ill_formed :
  utf8_decode [Byte.xff] None = replacement.
Proof. vm_compute. reflexivity. Qed.

Example stringify_parse_normalizes :
  option_map stringify (parse (js "{ 'a' : [1, 2],  'b': 'x' }"))
  = Some (js "{'a':[1,2],'b':'x'}").
Proof. vm_compute. reflexivity. Qed.

(** Scenario A: without a credential a message of 1000 characters passes
    unchanged, with zero totals and no call. *)
Example scenario_no_credential :
  processPayload without_key (answering improving)
    (stringify (one_message_payload (text_of_length 1000))) []
  = (Fulfilled (unchanged (stringify (one_message_payload (text_of_length 1000)))), []).
Proof. vm_compute. reflexivity. Qed.

(** Scenario C: the service times out; the text is the original one and the
    totals are zero, after one call. *)
Example scenario_timeout :
  (processPayload with_key timing_out
     (stringify (one_message_payload (text_of_length 500))) []).1
  = Fulfilled (unchanged (stringify (one_message_payload (text_of_length 500)))).
Proof. vm_compute. reflexivity. Qed.

(** Scenario D: the upstream connection fails; the caller receives 502 and
    the request is counted. *)
Example scenario_upstream_down :
  let h := handleRequest with_key (answering improving)
             (post_messages (one_message 500)) [ReqError "connect ECONNREFUSED"]
             initial_stats [] in
  head (clientRes (outcome h).2) = Some (502, ∅) ∧
  ended (clientRes (outcome h).2) = true ∧
  requests (stats_after h) = 1.
Proof. vm_compute. repeat split; reflexivity. Qed.

(** An error of the request after the head was relayed makes the listener
    throw. *)
Example late_error_throws :
  (forwardToAnthropic with_key "POST" "/v1/messages" ∅ (Some "{}") fresh_response
     upstream_late_error).2.1
  = Throw "Cannot write headers after they are sent to the client".
Proof. vm_compute. reflexivity. Qed.

(** The calls made before an exception stay made, and the body is the raw
    one. *)
Example exception_after_call :
  length (processPayload with_key (answering improving) null_after_long []).2 = 1%nat.
Proof. vm_compute. reflexivity. Qed.

(** The mixed payload: the long text block is replaced and keeps its
    other field; the system message, the image block, the short block and
    the short message are as they were. *)
Example mixed_transformed :
  processPayload with_key (answering improving) mixed []
  = (Fulfilled
       {| body :=
            stringify
              (JObj [("model", JStr "claude");
                     ("messages",
                      JArr [system_message;
                            JObj [("role", JStr "user");
                                  ("content",
                                   JArr [image_block; short_block;
                                         long_block "short text"])];
                            short_message]);
                     ("temperature", JNum 1)]);
          result_totalSaved := Num 120;
          result_totalOriginal := PNumber (Num 200) |},
     [call_for with_key (JStr (text_of_length 200))]).
Proof. vm_compute. reflexivity. Qed.

(** The response of the service is cut before its end: the call was
    issued, [processPayload] never returns, and [handleRequest] sends
    nothing upstream and leaves the caller without an answer; the request
    was counted. *)
Example cut_response_stalls :
  processPayload with_key cutting (one_message 500) []
    = (Pending, [call_for with_key (JStr (text_of_length 500))]) ∧
  let h := handleRequest with_key cutting (post_messages (one_message 500))
             upstream_ok initial_stats [] in
  upstream h = None ∧ clientRes (outcome h).2 = fresh_response ∧
  requests (stats_after h) = 1.
Proof. vm_compute. auto. Qed.

(** A credential with a line feed: [https.request] throws, no call is
    issued, and the [catch] of [processPayload] returns the raw body. *)
Example refused_credential_passes_through :
  header_value_ok (bearer pasted_key) = false ∧
  processPayload pasted_key (node_https (answering improving)) (one_message 500) []
    = (Fulfilled (unchanged (one_message 500)), []).
Proof. vm_compute. auto. Qed.

(** A text that is UTF-8 and not ASCII is decoded and encoded back to the
    same bytes; a byte string that is not UTF-8 is not. *)
Example accented_round_trip :
  well_formed_utf8 accented = true ∧
  Buffer_from (Buffer_toString accented) = accented ∧
  well_formed_utf8 [Byte.xc3] = false ∧
  Buffer_from (Buffer_toString [Byte.xc3]) = [Byte.xef; Byte.xbf; Byte.xbd].
Proof. vm_compute. auto 10. Qed.

(** The limits of well-formed UTF-8: the last code point of each length is
    in, and a surrogate, an overlong form and a code point past U+10FFFF
    are out. *)
Example well_formed_utf8_limits :
  well_formed_utf8 [Byte.x7f] = true ∧
  well_formed_utf8 [Byte.xdf; Byte.xbf] = true ∧
  well_formed_utf8 [Byte.xed; Byte.x9f; Byte.xbf] = true ∧
  well_formed_utf8 [Byte.xef; Byte.xbf; Byte.xbf] = true ∧
  well_formed_utf8 [Byte.xf4; Byte.x8f; Byte.xbf; Byte.xbf] = true ∧
  well_formed_utf8 [Byte.xed; Byte.xa0; Byte.x80] = false ∧
  well_formed_utf8 [Byte.xc0; Byte.x80] = false ∧
  well_formed_utf8 [Byte.xe0; Byte.x80; Byte.x80] = false ∧
  well_formed_utf8 [Byte.xf0; Byte.x80; Byte.x80; Byte.x80] = false ∧
  well_formed_utf8 [Byte.xf4; Byte.x90; Byte.x80; Byte.x80] = false ∧
  well_formed_utf8 [Byte.x80] = false.
Proof. vm_compute. auto 20. Qed.

(** The credential of the scenarios is accepted in a header; so is one in
    Latin-1; a control character is not. *)
Example header_values :
  header_value_ok (bearer with_key) = true ∧
  header_value_ok (String (ascii_of_Z 195) (String (ascii_of_Z 169) "")) = true ∧
  header_value_ok (String (ascii_of_Z 226) (String (ascii_of_Z 130)
                     (String (ascii_of_Z 172) ""))) = false ∧
  header_value_ok (String (ascii_of_Z 13) "") = false.
Proof. vm_compute. auto. Qed.

(** *** Where the specification says more than the code does *)



(** C3 as stated fails: the payload [{ "messages" : "hello" }] has no
    sequence of messages, and [processPayload] does not return the raw
    bytes: it returns the payload encoded again, without the spaces. *)
Lemma text_messages_not_passed_through :
  ¬ ((∃ payload, JSON_parse text_messages = Some payload ∧
                 no_message_sequence payload) →
     (processPayload with_key (answering improving) text_messages []).1
       = Fulfilled (unchanged text_messages)).
Proof.
  intros H.
  assert (Hno : ∃ payload, JSON_parse text_messages = Some payload ∧
                           no_message_sequence payload).
  { eexists. split; [vm_compute; reflexivity|]. intros msgs Hm.
    vm_compute in Hm. discriminate Hm. }
  specialize (H Hno). vm_compute in H. discriminate H.
Qed.

(** C4 as stated fails: the untouched message written [a\/b] is read as
    [a/b] and written back without the escape, so its bytes are not in the
    output. *)
Lemma escaped_message_not_bytewise :
  ∃ result,
    (processPayload with_key refusing escaped_solidus []).1 = Fulfilled result ∧
    ¬ appears_as_in escaped_solidus (body result) escaped_message.
Proof.
  eexists. split; [vm_compute; reflexivity|].
  unfold appears_as_in. intros H.
  assert (Hin : includes escaped_solidus escaped_message = true)
    by (vm_compute; reflexivity).
  specialize (H Hin). vm_compute in H. discriminate H.
Qed.

(** C5 as stated fails: the body of a request that is not transformed, when
    it is not UTF-8, is not forwarded as received. *)
Lemma upload_not_forwarded_as_received :
  ¬ (transformed handled_upload = false →
     forwarded_bytes handled_upload = received post_upload).
Proof.
  intros H. specialize (H ltac:(vm_compute; reflexivity)).
  vm_compute in H. discriminate H.
Qed.

(** C7 as stated fails: when the connection is lost after the head of the
    upstream response was relayed, the caller has the upstream status, not
    502, and its response is not ended, whether the loss is reported on the
    response or as an ['error'] of the request. *)
Lemma abort_after_head_not_answered :
  ¬ (transport_failure upstream_aborted →
     answered_502
       (clientRes (forwardToAnthropic with_key "POST" "/v1/messages" ∅
                     (Some "{}") fresh_response upstream_aborted).2.2))
  ∧
  ¬ (transport_failure upstream_late_error →
     answered_502
       (clientRes (forwardToAnthropic with_key "POST" "/v1/messages" ∅
                     (Some "{}") fresh_response upstream_late_error).2.2)).
Proof.
  split; intros H.
  - assert (Hf : transport_failure upstream_aborted).
    { exists ResAborted. split; [|auto]. unfold upstream_aborted.
      rewrite !elem_of_cons. auto. }
    destruct (H Hf) as [_ Hended]. vm_compute in Hended. discriminate Hended.
  - assert (Hf : transport_failure upstream_late_error).
    { exists (ReqError "socket hang up"). split; [|eauto]. unfold upstream_late_error.
      rewrite !elem_of_cons. auto. }
    destruct (H Hf) as [_ Hended]. vm_compute in Hended. discriminate Hended.
Qed.

(** *** The theorems at concrete inputs *)



Lemma processPayload_passes_malformed_through_witness :
  JSON_parse not_json = None ∧
  (processPayload with_key (answering improving) not_json []).1
    = Fulfilled (unchanged not_json) ∧
  (∃ payload, JSON_parse no_messages = Some payload ∧
              no_message_sequence payload ∧ ¬ messages_is_text payload) ∧
  (processPayload with_key (answering improving) no_messages []).1
    = Fulfilled (unchanged no_messages) ∧
  (∃ e, (run (processPayload_try with_key (answering improving) null_after_long) []).1
        = Rejected e) ∧
  (processPayload with_key (answering improving) null_after_long []).1
    = Fulfilled (unchanged null_after_long) ∧
  (∃ payload, JSON_parse text_messages = Some payload ∧ messages_is_text payload) ∧
  processPayload with_key (answering improving) text_messages []
    = (Fulfilled {| body := js "{'messages':'hello'}";
                    result_totalSaved := Num 0;
                    result_totalOriginal := PNumber (Num 0) |}, []).
Proof.
  assert (H1 : JSON_parse not_json = None) by (vm_compute; reflexivity).
  assert (H2 : ∃ payload, JSON_parse no_messages = Some payload ∧
                          no_message_sequence payload ∧ ¬ messages_is_text payload).
  { eexists. split; [vm_compute; reflexivity|]. split.
    - intros msgs Hm. vm_compute in Hm. discriminate Hm.
    - intros (s & Hm & _). vm_compute in Hm. discriminate Hm. }
  assert (H3 : ∃ e, (run (processPayload_try with_key (answering improving) null_after_long) []).1
                    = Rejected e).
  { eexists. vm_compute. reflexivity. }
  assert (H4p : JSON_parse text_messages = Some (JObj [("messages", JStr "hello")]))
    by (vm_compute; reflexivity).
  assert (H4 : messages_is_text (JObj [("messages", JStr "hello")])).
  { exists "hello". split; [reflexivity | discriminate]. }
  split; [exact H1|]. split.
  { apply (processPayload_passes_malformed_through with_key (answering improving)
             not_json []). left. exact H1. }
  split; [exact H2|]. split.
  { apply (processPayload_passes_malformed_through with_key (answering improving)
             no_messages []). right. left. exact H2. }
  split; [exact H3|]. split.
  { apply (processPayload_passes_malformed_through with_key (answering improving)
             null_after_long []). right. right. exact H3. }
  split; [eauto|].
  etrans.
  { apply (processPayload_passes_malformed_through with_key (answering improving)
             text_messages [] ); [exact H4p | exact H4]. }
  vm_compute. reflexivity.
Defined.

Lemma processPayload_preserves_values_witness :
  JSON_parse mixed = Some mixed_payload ∧
  (∃ result, (processPayload with_key (answering improving) mixed []).1
             = Fulfilled result) ∧
  ((processPayload with_key (answering improving) mixed []).1 = Pending ∨
   ∃ result,
     (processPayload with_key (answering improving) mixed []).1 = Fulfilled result ∧
     (body result = mixed ∨
      ∃ payload',
        body result = JSON_stringify payload' ∧
        payload_preserved with_key mixed_payload payload' ∧
        (∀ k, k ≠ "messages" → field payload' k = field mixed_payload k))).
Proof.
  assert (Hp : JSON_parse mixed = Some mixed_payload) by (vm_compute; reflexivity).
  split; [exact Hp|]. split; [eexists; vm_compute; reflexivity|].
  exact (processPayload_preserves_values with_key (answering improving) mixed
           mixed_payload [] Hp).
Defined.

Lemma handleRequest_transforms_eligible_witness :
  transformed handled_submission = true ∧
  forwarded_bytes handled_submission = Buffer_from compressed_body ∧
  tokensSaved (stats_after handled_submission) = PNumber (Num 120) ∧
  originalTokens (stats_after handled_submission) = PNumber (Num 200) ∧
  compressed (stats_after handled_submission) = 1 ∧
  transformed handled_batch = false ∧
  calls_after handled_batch = [] ∧
  compressed (stats_after handled_batch) = 0 ∧
  forwarded_bytes handled_batch = received post_batch ∧
  well_formed_utf8 (received post_accented) = true ∧
  received post_accented = accented ∧
  forwarded_bytes
    (handleRequest with_key (answering improving) post_accented upstream_ok
       initial_stats []) = accented.
Proof.
  destruct (handleRequest_transforms_eligible with_key (answering improving)
              (post_messages (one_message 500)) upstream_ok initial_stats [])
    as (Hiff & Hyes & _).
  destruct (handleRequest_transforms_eligible with_key (answering improving)
              post_batch upstream_ok initial_stats [])
    as (_ & _ & Hno).
  destruct (handleRequest_transforms_eligible with_key (answering improving)
              post_accented upstream_ok initial_stats [])
    as (_ & _ & Hno').
  assert (Ht : transformed handled_submission = true).
  { apply Hiff. repeat split; vm_compute; reflexivity. }
  assert (Hf : transformed handled_batch = false) by (vm_compute; reflexivity).
  assert (Hutf : well_formed_utf8 (received post_batch) = true)
    by (vm_compute; reflexivity).
  assert (Hutf' : well_formed_utf8 (received post_accented) = true)
    by (vm_compute; reflexivity).
  destruct (Hyes Ht) as (_ & [(Hpend & _) | (result & Hr & _ & Hb & Hs & Ho & Hc)]).
  { vm_compute in Hpend. discriminate Hpend. }
  assert (Heq : Fulfilled result
                = Fulfilled {| body := compressed_body; result_totalSaved := Num 120;
                               result_totalOriginal := PNumber (Num 200) |})
    by (rewrite <- Hr; vm_compute; reflexivity).
  injection Heq as ->.
  destruct (Hno Hf) as (Hcalls & _ & _ & Hc' & _ & _ & Hsame).
  destruct (Hno' ltac:(vm_compute; reflexivity)) as (_ & _ & _ & _ & _ & _ & Hsame').
  split; [exact Ht|].
  split; [exact Hb|].
  split; [etrans; [exact Hs|]; vm_compute; reflexivity|].
  split; [etrans; [exact Ho|]; vm_compute; reflexivity|].
  split; [etrans; [exact Hc|]; vm_compute; reflexivity|].
  split; [exact Hf|].
  split; [exact Hcalls|]. split; [exact Hc'|]. split; [exact (Hsame Hutf)|].
  split; [exact Hutf'|]. split; [vm_compute; reflexivity|].
  etrans; [exact (Hsame' Hutf')|]. vm_compute. reflexivity.
Defined.

Lemma second_pass_leaves_short_texts_witness :
  first_pass.1 = Fulfilled {| body := compressed_body;
                              result_totalSaved := Num 120;
                              result_totalOriginal := PNumber (Num 200) |} ∧
  JSON_parse compressed_body = Some (one_message_payload "short text") ∧
  settled with_key (one_message_payload "short text") ∧
  second_pass = (Fulfilled {| body := compressed_body;
                              result_totalSaved := Num 0;
                              result_totalOriginal := PNumber (Num 0) |}, first_pass.2).
Proof.
  assert (Hfirst : first_pass.1 = Fulfilled {| body := compressed_body;
                                               result_totalSaved := Num 120;
                                               result_totalOriginal := PNumber (Num 200) |})
    by (vm_compute; reflexivity).
  assert (Hp : JSON_parse compressed_body = Some (one_message_payload "short text"))
    by (vm_compute; reflexivity).
  assert (Hs : settled with_key (one_message_payload "short text")).
  { eexists. split; [reflexivity|]. constructor; [|constructor].
    split; [discriminate|]. intros _. reflexivity. }
  split; [exact Hfirst|]. split; [exact Hp|]. split; [exact Hs|].
  destruct (second_pass_leaves_short_texts with_key (answering improving)
              (one_message 500) [] _ Hfirst) as [_ Hfix].
  etrans; [exact (Hfix _ Hp Hs)|]. vm_compute. reflexivity.
Defined.

Lemma transform_skips_ineligible_witness :
  JSON_parse mixed = Some mixed_payload ∧
  field mixed_payload "messages" = Some (JArr mixed_messages) ∧
  ineligible_message with_key system_message ∧
  run (process_message with_key (answering improving) system_message no_totals) []
    = (Fulfilled (system_message, no_totals), []) ∧
  ineligible_block image_block ∧
  run (process_block with_key (answering improving) image_block no_totals) []
    = (Fulfilled (image_block, no_totals), []) ∧
  ((processPayload with_key (answering improving) mixed []).1 = Pending ∨
   (processPayload with_key (answering improving) mixed []).1
     = Fulfilled (unchanged mixed) ∨
   ∃ msgs' result,
     (processPayload with_key (answering improving) mixed []).1 = Fulfilled result ∧
     body result = JSON_stringify (set mixed_payload "messages" (JArr msgs')) ∧
     ineligible_kept with_key mixed_messages msgs').
Proof.
  assert (Hp : JSON_parse mixed = Some mixed_payload) by (vm_compute; reflexivity).
  assert (Hm : field mixed_payload "messages" = Some (JArr mixed_messages))
    by reflexivity.
  assert (Hs : ineligible_message with_key system_message) by (left; reflexivity).
  assert (Hi : ineligible_block image_block) by (left; reflexivity).
  destruct (transform_skips_ineligible with_key (answering improving) mixed
              mixed_payload mixed_messages [] Hp Hm) as (_ & Hmsg & Hblock & Hall).
  split; [exact Hp|]. split; [exact Hm|]. split; [exact Hs|].
  split; [apply Hmsg; [discriminate | exact Hs]|].
  split; [exact Hi|].
  split; [apply Hblock; [discriminate | exact Hi]|].
  exact Hall.
Defined.

End Evaluated.

(* ===================================================================== *)
(** ** The calls of a walk *)
(* ===================================================================== *)

Section Calls.
Context `{rt : Runtime}.
Variable cfg : config.
Variable svc : service.

Lemma calls_made_none {A} (c : promise A) (tr : trace) :
  calls_made cfg [] c tr tr.
Proof. exists []. simpl. rewrite app_nil_r. auto. Qed.

Lemma calls_made_all {A} (expected : list json) (c : promise A) (tr : trace) :
  calls_made cfg expected c tr (tr ++ map (call_for cfg) expected).
Proof. exists expected. auto. Qed.

(** A step that is not fulfilled may have made none of its calls. *)
Lemma calls_made_short {A} (expected : list json) (c : promise A) (tr : trace) :
  (∀ a, c ≠ Fulfilled a) → calls_made cfg expected c tr tr.
Proof.
  intros Hc. exists []. cbn. rewrite app_nil_r.
  split; [reflexivity|]. split; [apply prefix_nil|]. intros a Ha. destruct (Hc a Ha).
Qed.

(** The calls made depend on the promise only through its being fulfilled. *)
Lemma calls_made_fate {A B} (expected : list json) (c : promise A) (c' : promise B)
    (tr tr' : trace) :
  (∀ b, c' = Fulfilled b → ∃ a, c = Fulfilled a) →
  calls_made cfg expected c tr tr' → calls_made cfg expected c' tr tr'.
Proof.
  intros Hc (texts & Htr & Hpre & Hall). exists texts.
  split; [exact Htr|]. split; [exact Hpre|].
  intros b Hb. destruct (Hc b Hb) as [a Ha]. eauto.
Qed.

(** [compressText] sends its text, unless it skips the call or
    [https.request] throws. *)
Lemma compressText_sends (t : json) (tr : trace) :
  calls_made cfg (sent_text cfg t) (compressText cfg svc t tr).1 tr
    (compressText cfg svc t tr).2.
Proof.
  unfold sent_text. destruct (skipped cfg t) eqn:E.
  - rewrite compressText_skipped by done. apply calls_made_none.
  - rewrite compressText_called by done.
    destruct (svc tr (call_for cfg t)); cbn [fst snd];
      first [apply (calls_made_all [t]) | apply calls_made_short; discriminate].
Qed.

Lemma process_block_calls (block : json) (acc : totals) (tr : trace) :
  calls_made cfg (block_texts cfg block)
    (run (process_block cfg svc block acc) tr).1 tr
    (run (process_block cfg svc block acc) tr).2.
Proof.
  unfold block_texts. destruct (block_eligible cfg block) eqn:E.
  - destruct (process_block_compress cfg svc block acc tr E) as (t & Ht & ->).
    rewrite Ht. pose proof (compressText_sends t tr) as H.
    destruct (compressText cfg svc t tr) as [[r|e|] tr1]; cbn [fst snd] in *;
      (eapply calls_made_fate; [|exact H]); intros b Hb; simplify_eq; eauto.
  - destruct (null_or_not block) as [-> | Hn].
    + destruct (process_block_null cfg svc acc tr) as [e ->]. apply calls_made_none.
    + rewrite process_block_skip by done. apply calls_made_none.
Qed.

Lemma for_of_calls (turn : json → totals → proc (json * totals))
    (expected : json → list json) :
  (∀ x acc tr,
     calls_made cfg (expected x) (run (turn x acc) tr).1 tr (run (turn x acc) tr).2) →
  ∀ items acc tr,
    calls_made cfg (concat (map expected items))
      (run (for_of turn items acc) tr).1 tr (run (for_of turn items acc) tr).2.
Proof.
  intros Hturn. induction items as [|x rest IH]; intros acc tr; cbn [for_of map concat].
  - apply calls_made_none.
  - rewrite run_bind. specialize (Hturn x acc tr).
    destruct (run (turn x acc) tr) as [[[x1 acc1]|e|] tr1]; cbn [fst snd] in *.
    + destruct Hturn as (texts1 & -> & _ & Hall). specialize (Hall _ eq_refl). subst texts1.
      rewrite run_bind. specialize (IH acc1 (tr ++ map (call_for cfg) (expected x))).
      destruct (run (for_of turn rest acc1) _) as [[[rest1 acc2]|e|] tr2]; cbn [fst snd] in *;
        destruct IH as (texts2 & -> & Hpre & Hall);
        exists (expected x ++ texts2); rewrite map_app, app_assoc;
        (split; [reflexivity|]); (split; [by apply prefix_app|]).
      * intros a _. f_equal. eauto.
      * discriminate.
      * discriminate.
    + destruct Hturn as (texts1 & -> & Hpre & _). exists texts1.
      split; [reflexivity|]. split; [by apply prefix_app_r | discriminate].
    + destruct Hturn as (texts1 & -> & Hpre & _). exists texts1.
      split; [reflexivity|]. split; [by apply prefix_app_r | discriminate].
Qed.

Lemma process_message_calls (msg : json) (acc : totals) (tr : trace) :
  calls_made cfg (message_texts cfg msg)
    (run (process_message cfg svc msg acc) tr).1 tr
    (run (process_message cfg svc msg acc) tr).2.
Proof.
  unfold message_texts. destruct (recognized_role (field msg "role")) eqn:Hr.
  - rewrite process_message_recognized by done.
    destruct (field msg "content") as [[| | |s|blocks|]|]; try apply calls_made_none.
    + destruct (longer_than_min cfg (js_length (JStr s))); [|apply calls_made_none].
      pose proof (compressText_sends (JStr s) tr) as H.
      destruct (compressText cfg svc (JStr s) tr) as [[r|e|] tr1]; cbn [fst snd] in *;
        (eapply calls_made_fate; [|exact H]); intros b Hb; simplify_eq; eauto.
    + pose proof (for_of_calls (process_block cfg svc) (block_texts cfg)
                    process_block_calls blocks acc tr) as H.
      destruct (run (for_of (process_block cfg svc) blocks acc) tr)
        as [[[blocks1 acc1]|e|] tr1]; cbn [fst snd] in *;
        (eapply calls_made_fate; [|exact H]); intros b Hb; simplify_eq; eauto.
  - destruct (null_or_not msg) as [-> | Hn].
    + destruct (process_message_null cfg svc acc tr) as [e ->]. apply calls_made_none.
    + rewrite process_message_other_role by done. apply calls_made_none.
Qed.

Lemma processPayload_try_calls (bodyStr : string) (tr : trace) :
  calls_made cfg (from_option (payload_texts cfg) [] (JSON_parse bodyStr))
    (run (processPayload_try cfg svc bodyStr) tr).1 tr
    (run (processPayload_try cfg svc bodyStr) tr).2.
Proof.
  destruct (JSON_parse bodyStr) as [payload|] eqn:Hp; cbn [from_option].
  2:{ destruct (processPayload_try_unparseable cfg svc bodyStr tr Hp) as [e ->].
      apply calls_made_none. }
  rewrite (processPayload_try_parsed cfg svc bodyStr payload tr Hp).
  unfold payload_texts. destruct payload; try apply calls_made_none.
  destruct (field (JObj fields) "messages") as [[|b|n|s|msgs|]|] eqn:Hm;
    cbn [field] in Hm; rewrite ?Hm; cbn [truthy negb];
    try (repeat case_match; apply calls_made_none).
  pose proof (for_of_calls (process_message cfg svc) (message_texts cfg)
                process_message_calls msgs no_totals tr) as Hcalls.
  destruct (run (for_of (process_message cfg svc) msgs no_totals) tr)
    as [[[msgs1 acc1]|e|] tr1]; cbn [fst snd] in *;
    (eapply calls_made_fate; [|exact Hcalls]); intros b Hb; simplify_eq; eauto.
Qed.

Lemma processPayload_trace (bodyStr : string) (tr : trace) :
  (processPayload cfg svc bodyStr tr).2 = (run (processPayload_try cfg svc bodyStr) tr).2.
Proof.
  unfold processPayload.
  destruct (run (processPayload_try cfg svc bodyStr) tr) as [[r|e|] tr']; reflexivity.
Qed.

(** X1.  [processPayload] calls the service once for each text of the
    payload that is eligible and not skipped, in document order, with the
    call [compressText] builds for it, and makes no other call; when an
    exception interrupts the walk, or a call never ends, the calls made are
    the first of those. *)
Theorem processPayload_calls_in_order (bodyStr : string) (tr : trace) :
  ∃ texts,
    (processPayload cfg svc bodyStr tr).2 = tr ++ map (call_for cfg) texts ∧
    texts `prefix_of` from_option (payload_texts cfg) [] (JSON_parse bodyStr) ∧
    (∀ r, (run (processPayload_try cfg svc bodyStr) tr).1 = Fulfilled r →
          texts = from_option (payload_texts cfg) [] (JSON_parse bodyStr)).
Proof.
  rewrite processPayload_trace. exact (processPayload_try_calls bodyStr tr).
Qed.

End Calls.

Section CallsSent.
Context `{rt : Runtime}.
Variable cfg : config.
Variable svc : service.

Lemma elem_of_concat_map (f : json → list json) (items : list json) (u : json) :
  u ∈ concat (map f items) → ∃ x, x ∈ items ∧ u ∈ f x.
Proof.
  induction items as [|x rest IH]; cbn; [intros H; inversion H|].
  rewrite elem_of_app. intros [H | H].
  - exists x. split; [left | exact H].
  - destruct (IH H) as (y & Hy & Hu). exists y. split; [by right | exact Hu].
Qed.

Lemma sent_text_elem (t u : json) :
  u ∈ sent_text cfg t → u = t ∧ skipped cfg t = false.
Proof.
  unfold sent_text. destruct (skipped cfg t); [intros H; inversion H|].
  rewrite list_elem_of_singleton. auto.
Qed.

Lemma block_texts_elem (block u : json) :
  u ∈ block_texts cfg block →
  skipped cfg u = false ∧ longer_than_min cfg (js_length u) = true.
Proof.
  unfold block_texts, block_eligible.
  destruct (is_string (field block "type") "text"); cbn [andb]; [|intros H; inversion H].
  destruct (field block "text") as [t|]; [|intros H; inversion H].
  destruct (truthy (Some t) && longer_than_min cfg (js_length t)) eqn:E;
    [|intros H; inversion H].
  apply andb_true_iff in E as [_ El].
  intros H. apply sent_text_elem in H as [-> Hs]. auto.
Qed.

Lemma message_texts_elem (msg u : json) :
  u ∈ message_texts cfg msg →
  skipped cfg u = false ∧ longer_than_min cfg (js_length u) = true.
Proof.
  unfold message_texts.
  destruct (recognized_role (field msg "role")); [|intros H; inversion H].
  destruct (field msg "content") as [[| | |s|blocks|]|]; try (intros H; inversion H; fail).
  - destruct (longer_than_min cfg (js_length (JStr s))) eqn:El; [|intros H; inversion H].
    intros H. apply sent_text_elem in H as [-> Hs]. auto.
  - intros H. apply elem_of_concat_map in H as (block & _ & Hu).
    eauto using block_texts_elem.
Qed.

Lemma payload_texts_elem (payload u : json) :
  u ∈ payload_texts cfg payload →
  skipped cfg u = false ∧ longer_than_min cfg (js_length u) = true.
Proof.
  unfold payload_texts.
  destruct (field payload "messages") as [[| | | |msgs|]|]; try (intros H; inversion H; fail).
  intros H. apply elem_of_concat_map in H as (msg & _ & Hu).
  eauto using message_texts_elem.
Qed.

(** X2.  Every call [processPayload] makes carries the configured
    credential, the model ["bear-1"] and the configured aggressiveness, and
    its input is a non-empty value longer than the minimum length: no call
    is made without a credential, and no text at or under the threshold
    leaves the proxy. *)
Theorem processPayload_sends_only_long_texts (bodyStr : string) (tr : trace) :
  ∃ new,
    (processPayload cfg svc bodyStr tr).2 = tr ++ new ∧
    Forall (λ call,
              call_authorization call = bearer cfg ∧
              call_model call = "bear-1" ∧
              call_aggressiveness call = compressionThreshold cfg ∧
              no_credential cfg = false ∧
              truthy (Some (call_input call)) = true ∧
              longer_than_min cfg (js_length (call_input call)) = true) new.
Proof.
  destruct (processPayload_try_calls cfg svc bodyStr tr) as (texts & Htr & Hpre & _).
  exists (map (call_for cfg) texts). rewrite processPayload_trace. split; [exact Htr|].
  apply Forall_fmap, Forall_forall. intros t Ht.
  assert (Hin : t ∈ from_option (payload_texts cfg) [] (JSON_parse bodyStr)).
  { destruct Hpre as [k ->]. apply elem_of_app. auto. }
  destruct (JSON_parse bodyStr) as [payload|]; cbn [from_option] in Hin; [|inversion Hin].
  apply payload_texts_elem in Hin as [Hs Hl]. cbn.
  unfold skipped in Hs. apply orb_false_iff in Hs as [Hs _].
  apply orb_false_iff in Hs as [Hk Ht']. apply negb_false_iff in Ht'. auto 10.
Qed.

End CallsSent.

(* ===================================================================== *)
(** ** When no compression is accepted *)
(* ===================================================================== *)

Section Fallbacks.
Context `{rt : Runtime}.
Variable cfg : config.
Variable svc : service.

(** Every call of [compressText] resolves to the fallback, or is rejected. *)
Hypothesis always_fallback :
  ∀ t tr, (compressText cfg svc t tr).1 = Fulfilled (fallback t) ∨
          ∃ e, (compressText cfg svc t tr).1 = Rejected e.

Lemma process_block_fallback (block : json) (tr : trace) :
  (∃ tr', run (process_block cfg svc block no_totals) tr
          = (Fulfilled (block, no_totals), tr')) ∨
  (∃ e tr', run (process_block cfg svc block no_totals) tr = (Rejected e, tr')).
Proof.
  destruct (block_eligible cfg block) eqn:E.
  - destruct (process_block_compress cfg svc block no_totals tr E) as (t & Ht & ->).
    destruct (always_fallback t tr) as [H | [e H]];
      destruct (compressText cfg svc t tr) as [[r|e'|] tr1]; cbn [fst] in H;
      simplify_eq; [|eauto].
    left. eexists. change (text (fallback t)) with t.
    rewrite (set_id block "text" t Ht). reflexivity.
  - destruct (null_or_not block) as [-> | Hn].
    + destruct (process_block_null cfg svc no_totals tr) as [e ->]. eauto.
    + rewrite process_block_skip by done. eauto.
Qed.

Lemma for_of_fallback (turn : json → totals → proc (json * totals)) :
  (∀ x tr,
     (∃ tr', run (turn x no_totals) tr = (Fulfilled (x, no_totals), tr')) ∨
     (∃ e tr', run (turn x no_totals) tr = (Rejected e, tr'))) →
  ∀ items tr,
    (∃ tr', run (for_of turn items no_totals) tr = (Fulfilled (items, no_totals), tr')) ∨
    (∃ e tr', run (for_of turn items no_totals) tr = (Rejected e, tr')).
Proof.
  intros Hturn. induction items as [|x rest IH]; intros tr; cbn [for_of].
  - left. eexists. reflexivity.
  - rewrite run_bind. destruct (Hturn x tr) as [[tr1 ->] | (e & tr1 & ->)]; [|eauto].
    rewrite run_bind. destruct (IH tr1) as [[tr2 ->] | (e & tr2 & ->)]; eauto.
Qed.

Lemma process_message_fallback (msg : json) (tr : trace) :
  (∃ tr', run (process_message cfg svc msg no_totals) tr
          = (Fulfilled (msg, no_totals), tr')) ∨
  (∃ e tr', run (process_message cfg svc msg no_totals) tr = (Rejected e, tr')).
Proof.
  destruct (recognized_role (field msg "role")) eqn:Hr.
  - rewrite process_message_recognized by done.
    destruct (field msg "content") as [[| | |s|blocks|]|] eqn:Hc; eauto.
    + destruct (longer_than_min cfg (js_length (JStr s))); eauto.
      destruct (always_fallback (JStr s) tr) as [H | [e H]];
        destruct (compressText cfg svc (JStr s) tr) as [[r|e'|] tr1]; cbn [fst] in H;
        simplify_eq; [|eauto].
      left. eexists. change (text (fallback (JStr s))) with (JStr s).
      rewrite (set_id msg "content" (JStr s) Hc). reflexivity.
    + destruct (for_of_fallback (process_block cfg svc) process_block_fallback blocks tr)
        as [[tr1 ->] | (e & tr1 & ->)]; eauto.
      left. eexists. rewrite (set_id msg "content" (JArr blocks) Hc). reflexivity.
  - destruct (null_or_not msg) as [-> | Hn].
    + destruct (process_message_null cfg svc no_totals tr) as [e ->]. eauto.
    + rewrite process_message_other_role by done. eauto.
Qed.

Lemma processPayload_fallback (bodyStr : string) (tr : trace) :
  (processPayload cfg svc bodyStr tr).1 = Fulfilled (unchanged bodyStr) ∨
  ∃ payload,
    JSON_parse bodyStr = Some payload ∧
    (processPayload cfg svc bodyStr tr).1 =
    Fulfilled {| body := JSON_stringify payload;
                 result_totalSaved := Num 0;
                 result_totalOriginal := PNumber (Num 0) |}.
Proof.
  destruct (JSON_parse bodyStr) as [payload|] eqn:Hp.
  2:{ left. rewrite processPayload_unparseable by done. reflexivity. }
  unfold processPayload. rewrite (processPayload_try_parsed cfg svc bodyStr payload tr Hp).
  destruct payload; try (left; reflexivity).
  destruct (field (JObj fields) "messages") as [[|b|n|s|msgs|]|] eqn:Hm;
    cbn [field] in Hm; rewrite ?Hm; cbn [truthy negb].
  1,6,7: left; reflexivity.
  1: destruct b; left; reflexivity.
  1: destruct (negb (n =? 0)); left; reflexivity.
  1: destruct (negb (String.eqb s "")); [right; eauto | left; reflexivity].
  destruct (for_of_fallback (process_message cfg svc) process_message_fallback msgs tr)
    as [[tr1 ->] | (e & tr1 & ->)]; [|left; reflexivity].
  right. eexists. split; [reflexivity|]. cbn [fst].
  change (assoc "messages" fields) with (field (JObj fields) "messages") in Hm.
  rewrite (set_id (JObj fields) "messages" (JArr msgs) Hm). reflexivity.
Qed.

End Fallbacks.

Section PassThrough.
Context `{rt : Runtime}.
Variable cfg : config.
Variable svc : service.

Lemma sent_nothing_payload (payload : json) :
  (∀ t, sent_text cfg t = []) → payload_texts cfg payload = [].
Proof.
  intros Hnone.
  assert (Hjoin : ∀ (f : json → list json) items,
            (∀ x, f x = []) → concat (map f items) = []).
  { intros f items Hf. induction items as [|x rest IH]; [reflexivity|].
    cbn. rewrite Hf, IH. reflexivity. }
  assert (Hblock : ∀ block, block_texts cfg block = []).
  { intros block. unfold block_texts. repeat case_match; auto. }
  assert (Hmsg : ∀ msg, message_texts cfg msg = []).
  { intros msg. unfold message_texts. repeat case_match; auto. }
  unfold payload_texts. repeat case_match; auto.
Qed.

(** X3.  Without a credential the proxy is a pass-through: whatever the
    body, [processPayload] makes no call and resolves, with zero totals, to
    either the body it was given or the decoded payload encoded again, with
    no value changed. *)
Theorem processPayload_without_credential (bodyStr : string) (tr : trace) :
  no_credential cfg = true →
  (processPayload cfg svc bodyStr tr).2 = tr ∧
  ((processPayload cfg svc bodyStr tr).1 = Fulfilled (unchanged bodyStr) ∨
   ∃ payload,
     JSON_parse bodyStr = Some payload ∧
     (processPayload cfg svc bodyStr tr).1 =
     Fulfilled {| body := JSON_stringify payload;
                  result_totalSaved := Num 0;
                  result_totalOriginal := PNumber (Num 0) |}).
Proof.
  intros Hk.
  assert (Hskip : ∀ t, skipped cfg t = true) by (intros t; unfold skipped; rewrite Hk; reflexivity).
  split.
  - destruct (processPayload_try_calls cfg svc bodyStr tr) as (texts & Htr & Hpre & _).
    rewrite processPayload_trace, Htr.
    assert (Hnone : from_option (payload_texts cfg) [] (JSON_parse bodyStr) = []).
    { destruct (JSON_parse bodyStr); cbn [from_option]; [|reflexivity].
      apply sent_nothing_payload. intros t. unfold sent_text. rewrite Hskip. reflexivity. }
    rewrite Hnone in Hpre. apply prefix_nil_inv in Hpre. subst texts.
    cbn. apply app_nil_r.
  - apply processPayload_fallback. intros t tr0.
    rewrite compressText_skipped by auto. left. reflexivity.
Qed.

(** X4.  When the service never delivers a response (every call ends with
    an error or a timeout, or is not sent), [processPayload] resolves, with
    zero totals, to either the body it was given or the decoded payload
    encoded again, with no value changed. *)
Theorem processPayload_with_silent_service (bodyStr : string) (tr : trace) :
  silent_service svc →
  (processPayload cfg svc bodyStr tr).1 = Fulfilled (unchanged bodyStr) ∨
  ∃ payload,
    JSON_parse bodyStr = Some payload ∧
    (processPayload cfg svc bodyStr tr).1 =
    Fulfilled {| body := JSON_stringify payload;
                 result_totalSaved := Num 0;
                 result_totalOriginal := PNumber (Num 0) |}.
Proof.
  intros Hsilent. apply processPayload_fallback. intros t tr0.
  destruct (skipped cfg t) eqn:Hs.
  - rewrite compressText_skipped by done. left. reflexivity.
  - rewrite compressText_called by done.
    destruct (Hsilent tr0 (call_for cfg t)) as [Hcut Hend].
    destruct (svc tr0 (call_for cfg t)) as [e| |data| |e] eqn:Hsvc; cbn [fst]; eauto.
    + destruct (Hend data eq_refl).
    + destruct (Hcut eq_refl).
Qed.

End PassThrough.

(* ===================================================================== *)
(** ** The totals *)
(* ===================================================================== *)

Section Totals.
Context `{rt : Runtime}.
Variable cfg : config.
Variable svc : service.

Lemma compressText_sound (t : json) (tr : trace) (r : compression) :
  sound_service svc →
  (compressText cfg svc t tr).1 = Fulfilled r →
  ∃ s o, saved r = Num s ∧ original r = Some (JNum o) ∧ 0 ≤ s ≤ o.
Proof.
  intros Hsound.
  assert (Hfb : ∃ s o, saved (fallback t) = Num s ∧
                       original (fallback t) = Some (JNum o) ∧ 0 ≤ s ≤ o)
    by (exists 0, 0; repeat split; lia).
  destruct (skipped cfg t) eqn:Hs.
  { rewrite compressText_skipped by done. cbn [fst]. intros ?; simplify_eq. exact Hfb. }
  rewrite compressText_called by done.
  destruct (svc tr (call_for cfg t)) as [e| |data| |e] eqn:Hsvc; cbn [fst];
    intros ?; simplify_eq; try exact Hfb.
  destruct (on_end t data) as [r|e] eqn:Hend; [|exact Hfb].
  destruct (on_end_cases t data r Hend)
    as [-> | (response & out & Hp & _ & _ & Hlt & ->)]; [exact Hfb|].
  destruct (Hsound _ _ _ _ Hsvc Hp) as [Hot Hoi]. cbn [saved original].
  destruct (field response "original_input_tokens") as [vi|].
  - destruct (Hoi vi eq_refl) as [oi ->].
    destruct (field response "output_tokens") as [vo|]; [|discriminate].
    destruct (Hot vo eq_refl) as (ot & -> & Hge).
    unfold js_lt in Hlt. cbn in Hlt. apply Z.ltb_lt in Hlt.
    exists (oi - ot), oi. repeat split; lia.
  - destruct (field response "output_tokens") as [vo|]; [|discriminate].
    destruct (Hot vo eq_refl) as (ot & -> & Hge). discriminate.
Qed.

Lemma add_result_sound (acc : totals) (r : compression) :
  totals_ok acc →
  (∃ s o, saved r = Num s ∧ original r = Some (JNum o) ∧ 0 ≤ s ≤ o) →
  totals_ok (add_result acc r).
Proof.
  intros (s0 & o0 & Hs0 & Ho0 & Hle0) (s & o & Hs & Ho & Hle).
  injection Hs0 as Hs0. unfold totals_ok, add_result. cbn [totalSaved totalOriginal].
  rewrite Hs0, Ho0, Hs, Ho. exists (s0 + s), (o0 + o). repeat split; lia.
Qed.

Lemma for_of_invariant (turn : json → totals → proc (json * totals))
    (I : totals → Prop) :
  (∀ x acc tr x' acc' tr',
     I acc → run (turn x acc) tr = (Fulfilled (x', acc'), tr') → I acc') →
  ∀ items acc tr items' acc' tr',
    I acc → run (for_of turn items acc) tr = (Fulfilled (items', acc'), tr') → I acc'.
Proof.
  intros Hturn. induction items as [|x rest IH]; intros acc tr items' acc' tr' HI;
    cbn [for_of].
  - rewrite run_ret. intros ?; simplify_eq. exact HI.
  - rewrite run_bind.
    destruct (run (turn x acc) tr) as [[[x1 acc1]|e|] tr1] eqn:E1; try discriminate.
    rewrite run_bind.
    destruct (run (for_of turn rest acc1) tr1) as [[[rest1 acc2]|e|] tr2] eqn:E2;
      try discriminate.
    rewrite run_ret. intros ?; simplify_eq. eauto.
Qed.

Lemma process_block_sound (block block' : json) (acc acc' : totals) (tr tr' : trace) :
  sound_service svc → totals_ok acc →
  run (process_block cfg svc block acc) tr = (Fulfilled (block', acc'), tr') →
  totals_ok acc'.
Proof.
  intros Hsvc Hacc. destruct (block_eligible cfg block) eqn:E.
  - destruct (process_block_compress cfg svc block acc tr E) as (t & _ & ->).
    pose proof (compressText_sound t tr) as H.
    destruct (compressText cfg svc t tr) as [[r|e|] tr1]; intros ?; simplify_eq.
    auto using add_result_sound.
  - destruct (null_or_not block) as [-> | Hn].
    + destruct (process_block_null cfg svc acc tr) as [e ->]. discriminate.
    + rewrite process_block_skip by done. intros ?; simplify_eq. exact Hacc.
Qed.

Lemma process_message_sound (msg msg' : json) (acc acc' : totals) (tr tr' : trace) :
  sound_service svc → totals_ok acc →
  run (process_message cfg svc msg acc) tr = (Fulfilled (msg', acc'), tr') →
  totals_ok acc'.
Proof.
  intros Hsvc Hacc. destruct (recognized_role (field msg "role")) eqn:Hr.
  - rewrite process_message_recognized by done.
    destruct (field msg "content") as [[| | |s|blocks|]|];
      try (intros ?; simplify_eq; exact Hacc).
    + destruct (longer_than_min cfg (js_length (JStr s)));
        [|intros ?; simplify_eq; exact Hacc].
      pose proof (compressText_sound (JStr s) tr) as H.
      destruct (compressText cfg svc (JStr s) tr) as [[r|e|] tr1];
        intros ?; simplify_eq.
      auto using add_result_sound.
    + destruct (run (for_of (process_block cfg svc) blocks acc) tr)
        as [[[blocks1 acc1]|e|] tr1] eqn:E; intros ?; simplify_eq.
      eapply (for_of_invariant (process_block cfg svc) totals_ok); [|exact Hacc|exact E].
      intros; eapply process_block_sound; eauto.
  - destruct (null_or_not msg) as [-> | Hn].
    + destruct (process_message_null cfg svc acc tr) as [e ->]. discriminate.
    + rewrite process_message_other_role by done. intros ?; simplify_eq. exact Hacc.
Qed.

Lemma no_totals_sound : totals_ok no_totals.
Proof. exists 0, 0. repeat split; lia. Qed.

Lemma processPayload_sound (bodyStr : string) (tr : trace) (result : payload_result) :
  sound_service svc →
  (processPayload cfg svc bodyStr tr).1 = Fulfilled result →
  totals_sound (PNumber (result_totalSaved result)) (result_totalOriginal result).
Proof.
  intros Hsvc.
  assert (Hzero : totals_sound (PNumber (Num 0)) (PNumber (Num 0)))
    by exact no_totals_sound.
  destruct (JSON_parse bodyStr) as [payload|] eqn:Hp.
  2:{ rewrite processPayload_unparseable by done. cbn [fst].
      intros ?; simplify_eq. exact Hzero. }
  unfold processPayload. rewrite (processPayload_try_parsed cfg svc bodyStr payload tr Hp).
  destruct payload; try (intros H; cbn in H; simplify_eq; exact Hzero).
  destruct (field (JObj fields) "messages") as [[|b|n|s|msgs|]|] eqn:Hm;
    cbn [field] in Hm; rewrite ?Hm; cbn [truthy negb].
  1,6,7: intros H; cbn in H; simplify_eq; exact Hzero.
  1: destruct b; intros H; cbn in H; simplify_eq; exact Hzero.
  1: destruct (negb (n =? 0)); intros H; cbn in H; simplify_eq; exact Hzero.
  1: destruct (negb (String.eqb s "")); intros H; cbn in H; simplify_eq; exact Hzero.
  destruct (run (for_of (process_message cfg svc) msgs no_totals) tr)
    as [[[msgs1 acc1]|e|] tr1] eqn:E; cbn [fst]; intros ?; simplify_eq;
    [|exact Hzero].
  cbn [result_totalSaved result_totalOriginal].
  eapply (for_of_invariant (process_message cfg svc) totals_ok);
    [|exact no_totals_sound|exact E].
  intros; eapply process_message_sound; eauto.
Qed.

(** X5.  When the token counts the service reports are Numbers with a
    non-negative output count, the promise of [processPayload] stays
    pending or is fulfilled with totals that are Numbers with
    0 <= totalSaved <= totalOriginal, whatever the payload. *)
Theorem processPayload_totals_bounded (bodyStr : string) (tr : trace) :
  sound_service svc →
  (processPayload cfg svc bodyStr tr).1 = Pending ∨
  ∃ result s o,
    (processPayload cfg svc bodyStr tr).1 = Fulfilled result ∧
    result_totalSaved result = Num s ∧
    result_totalOriginal result = PNumber (Num o) ∧
    0 ≤ s ≤ o.
Proof.
  intros Hsvc.
  destruct (processPayload_fate cfg svc bodyStr tr) as [H | [result H]]; [left; exact H|].
  destruct (processPayload_sound bodyStr tr result Hsvc H) as (s & o & Hs & Ho & Hle).
  right. exists result, s, o. injection Hs as Hs. auto.
Qed.

(** X6.  Under the same condition on the service, [handleRequest] keeps
    the lifetime totals sound: if [stats.tokensSaved] and
    [stats.originalTokens] are Numbers with 0 <= tokensSaved <=
    originalTokens before a request, they are after it, and neither
    decreases. *)
Theorem handleRequest_keeps_totals_sound (req : request) (events : list upstream_event)
    (st : stats) (tr : trace) (s o : Z) :
  sound_service svc →
  tokensSaved st = PNumber (Num s) → originalTokens st = PNumber (Num o) →
  0 ≤ s ≤ o →
  ∃ s' o',
    tokensSaved (stats_after (handleRequest cfg svc req events st tr)) = PNumber (Num s') ∧
    originalTokens (stats_after (handleRequest cfg svc req events st tr)) = PNumber (Num o') ∧
    0 ≤ s' ≤ o' ∧ s ≤ s' ∧ o ≤ o'.
Proof.
  intros Hsvc Hs Ho Hle. unfold handleRequest.
  destruct (collect_body req) as [b|]; [|exists s, o; cbn; repeat split; auto; lia].
  destruct (isMessagesEndpoint req && present (Some b));
    [|exists s, o; cbn; repeat split; auto; lia].
  pose proof (processPayload_sound b tr) as Hsound.
  destruct (processPayload cfg svc b tr) as [[result|e|] tr'];
    [|exists s, o; cbn; repeat split; auto; lia..].
  destruct (Hsound result Hsvc eq_refl) as (s1 & o1 & Hs1 & Ho1 & Hle1).
  cbn in *. injection Hs1 as Hs1. rewrite Hs, Ho, Hs1, Ho1.
  exists (s + s1), (o + o1). cbn. repeat split; lia.
Qed.

(** X7.  [handleRequest] increments [stats.compressed] by at most one and
    never past [stats.requests]: if 0 <= compressed <= requests before a
    request, the same holds after it. *)
Theorem handleRequest_keeps_counters_ordered (req : request)
    (events : list upstream_event) (st : stats) (tr : trace) :
  0 ≤ compressed st ≤ requests st →
  let st' := stats_after (handleRequest cfg svc req events st tr) in
  0 ≤ compressed st' ≤ requests st' ∧
  compressed st ≤ compressed st' ≤ compressed st + 1.
Proof.
  intros Hle. unfold handleRequest.
  destruct (collect_body req) as [b|]; [|cbn; lia].
  destruct (isMessagesEndpoint req && present (Some b)); [|cbn; lia].
  destruct (processPayload cfg svc b tr) as [[result|e|] tr']; cbn; [|lia..].
  destruct (result_totalSaved result) as [|y]; [lia|]. destruct (0 <? y); lia.
Qed.

End Totals.

Section NoCall.
Context `{rt : Runtime}.
Variable cfg : config.
Variable svc : service.

Lemma app_self_nil {A} (l new : list A) : l ++ new = l → new = [].
Proof. intros H. apply (app_inv_head l). rewrite app_nil_r. exact H. Qed.

Lemma compressText_no_call (t : json) (tr : trace) (r : compression) :
  compressText cfg svc t tr = (Fulfilled r, tr) → r = fallback t.
Proof.
  destruct (skipped cfg t) eqn:Hs.
  { rewrite compressText_skipped by done. intros ?; simplify_eq. reflexivity. }
  rewrite compressText_called by done.
  destruct (svc tr (call_for cfg t)); intros H; simplify_eq;
    match goal with
    | H : _ ++ _ = _ |- _ => apply app_self_nil in H; discriminate H
    end.
Qed.

(** A call that never ends was issued. *)
Lemma compressText_pending (t : json) (tr tr' : trace) :
  compressText cfg svc t tr = (Pending, tr') → (length tr < length tr')%nat.
Proof.
  destruct (skipped cfg t) eqn:Hs.
  { rewrite compressText_skipped by done. discriminate. }
  rewrite compressText_called by done.
  destruct (svc tr (call_for cfg t)); intros H; simplify_eq.
  rewrite length_app. cbn. lia.
Qed.

Lemma calls_made_length {A} (expected : list json) (c : promise A) (tr tr' : trace) :
  calls_made cfg expected c tr tr' → (length tr ≤ length tr')%nat.
Proof. intros (texts & -> & _). rewrite length_app. lia. Qed.

Lemma process_block_no_call (block block' : json) (acc' : totals) (tr : trace) :
  run (process_block cfg svc block no_totals) tr = (Fulfilled (block', acc'), tr) →
  acc' = no_totals.
Proof.
  destruct (block_eligible cfg block) eqn:E.
  - destruct (process_block_compress cfg svc block no_totals tr E) as (t & _ & ->).
    destruct (compressText cfg svc t tr) as [[r|e|] tr1] eqn:Hc;
      intros ?; simplify_eq.
    rewrite (compressText_no_call t tr r Hc). reflexivity.
  - destruct (null_or_not block) as [-> | Hn].
    + destruct (process_block_null cfg svc no_totals tr) as [e ->]. discriminate.
    + rewrite process_block_skip by done. intros ?; simplify_eq. reflexivity.
Qed.

Lemma process_block_pending (block : json) (acc : totals) (tr tr' : trace) :
  run (process_block cfg svc block acc) tr = (Pending, tr') →
  (length tr < length tr')%nat.
Proof.
  destruct (block_eligible cfg block) eqn:E.
  - destruct (process_block_compress cfg svc block acc tr E) as (t & _ & ->).
    destruct (compressText cfg svc t tr) as [[r|e|] tr1] eqn:Hc;
      intros ?; simplify_eq.
    eauto using compressText_pending.
  - destruct (null_or_not block) as [-> | Hn].
    + destruct (process_block_null cfg svc acc tr) as [e ->]. discriminate.
    + rewrite process_block_skip by done. discriminate.
Qed.

Lemma for_of_no_call (turn : json → totals → proc (json * totals))
    (expected : json → list json) :
  (∀ x acc tr,
     calls_made cfg (expected x) (run (turn x acc) tr).1 tr (run (turn x acc) tr).2) →
  (∀ x tr x' acc',
     run (turn x no_totals) tr = (Fulfilled (x', acc'), tr) → acc' = no_totals) →
  ∀ items tr items' acc',
    run (for_of turn items no_totals) tr = (Fulfilled (items', acc'), tr) →
    acc' = no_totals.
Proof.
  intros Hcalls Hturn. induction items as [|x rest IH]; intros tr items' acc';
    cbn [for_of].
  - rewrite run_ret. intros ?; simplify_eq. reflexivity.
  - rewrite run_bind. pose proof (Hcalls x no_totals tr) as H1.
    destruct (run (turn x no_totals) tr) as [[[x1 acc1]|e|] tr1] eqn:E1;
      try discriminate.
    rewrite run_bind.
    pose proof (for_of_calls cfg turn expected Hcalls rest acc1 tr1) as H2.
    destruct (run (for_of turn rest acc1) tr1) as [[[rest1 acc2]|e|] tr2] eqn:E2;
      try discriminate.
    rewrite run_ret. intros ?; simplify_eq. cbn [fst snd] in *.
    destruct H1 as (texts1 & Htr1 & _). destruct H2 as (texts2 & Htr2 & _).
    assert (Hnil : map (call_for cfg) texts1 = []).
    { rewrite Htr1, <- app_assoc in Htr2. symmetry in Htr2.
      apply app_self_nil, app_eq_nil in Htr2 as [? _]. assumption. }
    rewrite Hnil, app_nil_r in Htr1. subst tr1.
    rewrite (Hturn _ _ _ _ E1) in E2. eauto.
Qed.

Lemma for_of_pending (turn : json → totals → proc (json * totals))
    (expected : json → list json) :
  (∀ x acc tr,
     calls_made cfg (expected x) (run (turn x acc) tr).1 tr (run (turn x acc) tr).2) →
  (∀ x acc tr tr',
     run (turn x acc) tr = (Pending, tr') → (length tr < length tr')%nat) →
  ∀ items acc tr tr',
    run (for_of turn items acc) tr = (Pending, tr') → (length tr < length tr')%nat.
Proof.
  intros Hcalls Hturn. induction items as [|x rest IH]; intros acc tr tr';
    cbn [for_of].
  - rewrite run_ret. discriminate.
  - rewrite run_bind. pose proof (Hcalls x acc tr) as H1.
    destruct (run (turn x acc) tr) as [[[x1 acc1]|e|] tr1] eqn:E1;
      try discriminate.
    + rewrite run_bind.
      destruct (run (for_of turn rest acc1) tr1) as [[[rest1 acc2]|e|] tr2] eqn:E2;
        try discriminate.
      intros ?; simplify_eq. apply calls_made_length in H1. cbn [fst snd] in H1.
      specialize (IH _ _ _ E2). lia.
    + intros ?; simplify_eq. eauto.
Qed.

Lemma process_message_no_call (msg msg' : json) (acc' : totals) (tr : trace) :
  run (process_message cfg svc msg no_totals) tr = (Fulfilled (msg', acc'), tr) →
  acc' = no_totals.
Proof.
  destruct (recognized_role (field msg "role")) eqn:Hr.
  - rewrite process_message_recognized by done.
    destruct (field msg "content") as [[| | |s|blocks|]|];
      try (intros ?; simplify_eq; reflexivity).
    + destruct (longer_than_min cfg (js_length (JStr s)));
        [|intros ?; simplify_eq; reflexivity].
      destruct (compressText cfg svc (JStr s) tr) as [[r|e|] tr1] eqn:Hc;
        intros ?; simplify_eq.
      rewrite (compressText_no_call (JStr s) tr r Hc). reflexivity.
    + destruct (run (for_of (process_block cfg svc) blocks no_totals) tr)
        as [[[blocks1 acc1]|e|] tr1] eqn:E; intros ?; simplify_eq.
      eapply (for_of_no_call (process_block cfg svc) (block_texts cfg));
        eauto using process_block_calls, process_block_no_call.
  - destruct (null_or_not msg) as [-> | Hn].
    + destruct (process_message_null cfg svc no_totals tr) as [e ->]. discriminate.
    + rewrite process_message_other_role by done. intros ?; simplify_eq. reflexivity.
Qed.

Lemma process_message_pending (msg : json) (acc : totals) (tr tr' : trace) :
  run (process_message cfg svc msg acc) tr = (Pending, tr') →
  (length tr < length tr')%nat.
Proof.
  destruct (recognized_role (field msg "role")) eqn:Hr.
  - rewrite process_message_recognized by done.
    destruct (field msg "content") as [[| | |s|blocks|]|]; try discriminate.
    + destruct (longer_than_min cfg (js_length (JStr s))); [|discriminate].
      destruct (compressText cfg svc (JStr s) tr) as [[r|e|] tr1] eqn:Hc;
        intros ?; simplify_eq.
      eauto using compressText_pending.
    + destruct (run (for_of (process_block cfg svc) blocks acc) tr)
        as [[[blocks1 acc1]|e|] tr1] eqn:E; intros ?; simplify_eq.
      eapply (for_of_pending (process_block cfg svc) (block_texts cfg));
        eauto using process_block_calls, process_block_pending.
  - destruct (null_or_not msg) as [-> | Hn].
    + destruct (process_message_null cfg svc acc tr) as [e ->]. discriminate.
    + rewrite process_message_other_role by done. discriminate.
Qed.

(** A promise of [processPayload] that stays pending has issued a call. *)
Lemma processPayload_pending (bodyStr : string) (tr tr' : trace) :
  processPayload cfg svc bodyStr tr = (Pending, tr') → (length tr < length tr')%nat.
Proof.
  destruct (JSON_parse bodyStr) as [payload|] eqn:Hp.
  2:{ rewrite processPayload_unparseable by done. discriminate. }
  unfold processPayload. rewrite (processPayload_try_parsed cfg svc bodyStr payload tr Hp).
  destruct payload; try (intros H; cbn in H; discriminate H).
  destruct (field (JObj fields) "messages") as [[|b|n|s|msgs|]|] eqn:Hm;
    cbn [field] in Hm; rewrite ?Hm; cbn [truthy negb].
  1,6,7: intros H; cbn in H; discriminate H.
  1: destruct b; intros H; cbn in H; discriminate H.
  1: destruct (negb (n =? 0)); intros H; cbn in H; discriminate H.
  1: destruct (negb (String.eqb s "")); intros H; cbn in H; discriminate H.
  destruct (run (for_of (process_message cfg svc) msgs no_totals) tr)
    as [[[msgs1 acc1]|e|] tr1] eqn:E; intros ?; simplify_eq.
  eapply (for_of_pending (process_message cfg svc) (message_texts cfg));
    eauto using process_message_calls, process_message_pending.
Qed.

Lemma processPayload_no_call (bodyStr : string) (tr : trace) :
  (processPayload cfg svc bodyStr tr).2 = tr →
  ∃ result,
    (processPayload cfg svc bodyStr tr).1 = Fulfilled result ∧
    result_totalSaved result = Num 0 ∧
    result_totalOriginal result = PNumber (Num 0).
Proof.
  intros Htr.
  destruct (processPayload cfg svc bodyStr tr) as [[result|e|] tr1] eqn:Hrun;
    cbn [fst snd] in *; subst tr1.
  2:{ pose proof (processPayload_fate cfg svc bodyStr tr) as Hf. rewrite Hrun in Hf.
      destruct Hf as [Hf | [r Hf]]; discriminate Hf. }
  2:{ apply processPayload_pending in Hrun. lia. }
  exists result. split; [reflexivity|]. revert Hrun.
  destruct (JSON_parse bodyStr) as [payload|] eqn:Hp.
  2:{ rewrite processPayload_unparseable by done. intros ?; simplify_eq. auto. }
  unfold processPayload. rewrite (processPayload_try_parsed cfg svc bodyStr payload tr Hp).
  destruct payload; try (intros H; cbn in H; simplify_eq; auto; fail).
  destruct (field (JObj fields) "messages") as [[|b|n|s|msgs|]|] eqn:Hm;
    cbn [field] in Hm; rewrite ?Hm; cbn [truthy negb].
  1,6,7: intros H; cbn in H; simplify_eq; auto.
  1: destruct b; intros H; cbn in H; simplify_eq; auto.
  1: destruct (negb (n =? 0)); intros H; cbn in H; simplify_eq; auto.
  1: destruct (negb (String.eqb s "")); intros H; cbn in H; simplify_eq; auto.
  destruct (run (for_of (process_message cfg svc) msgs no_totals) tr)
    as [[[msgs1 acc1]|e|] tr1] eqn:E; intros ?; simplify_eq; auto.
  cbn [result_totalSaved result_totalOriginal].
  rewrite (for_of_no_call (process_message cfg svc) (message_texts cfg)
             (process_message_calls cfg svc)
             (λ x tr0 x' acc', process_message_no_call x x' acc' tr0) _ _ _ _ E).
  auto.
Qed.

(** X8.  Savings come from calls only: when [processPayload] has made no
    call to the service it has resolved, with totals that are zero; and a
    request during which [handleRequest] made no call is not counted in
    [stats.compressed]. *)
Theorem no_call_no_saving (req : request) (events : list upstream_event)
    (st : stats) (tr : trace) :
  (∀ bodyStr,
     (processPayload cfg svc bodyStr tr).2 = tr →
     ∃ result,
       (processPayload cfg svc bodyStr tr).1 = Fulfilled result ∧
       result_totalSaved result = Num 0 ∧
       result_totalOriginal result = PNumber (Num 0)) ∧
  (calls_after (handleRequest cfg svc req events st tr) = tr →
   compressed (stats_after (handleRequest cfg svc req events st tr)) = compressed st).
Proof.
  split; [exact (λ bodyStr, processPayload_no_call bodyStr tr)|].
  unfold handleRequest.
  destruct (collect_body req) as [b|]; [|reflexivity].
  destruct (isMessagesEndpoint req && present (Some b)); [|reflexivity].
  pose proof (processPayload_no_call b tr) as H.
  destruct (processPayload cfg svc b tr) as [[result|e|] tr'];
    cbn in *; try reflexivity.
  intros ->. destruct (H eq_refl) as (r & Hr & Hs & _). simplify_eq.
  rewrite Hs. reflexivity.
Qed.

End NoCall.

(* ===================================================================== *)
(** ** The relay and the request sent upstream *)
(* ===================================================================== *)

Section Relay.
Context `{rt : Runtime}.
Variable cfg : config.
Variable svc : service.

Lemma deliver_data (body_chunks : list (list byte)) (rest : list upstream_event)
    (hd : option (Z * header_map)) (already : list (list byte)) :
  deliver (map ResData body_chunks ++ rest)
    {| clientRes := {| head := hd; sent := already; ended := false |}; piping := true |}
  = deliver rest
      {| clientRes := {| head := hd; sent := already ++ body_chunks; ended := false |};
         piping := true |}.
Proof.
  revert already. induction body_chunks as [|chunk more IH]; intros already.
  - cbn [map app]. rewrite app_nil_r. reflexivity.
  - cbn [map app deliver on_event]. cbn. unfold write. cbn.
    rewrite IH, <- app_assoc. reflexivity.
Qed.

(** X9.  The upstream response is relayed as it arrives: once the head and
    some chunks have come, the caller has the upstream status and headers,
    unchanged, and exactly those chunks in order, and its response is still
    open; when the upstream ends, the caller's response is ended with
    nothing added. *)
Theorem forwardToAnthropic_relays (method urlPath : string) (headers : header_map)
    (forwarded : option string) (status : Z) (hs : header_map)
    (body_chunks : list (list byte)) :
  let streaming := {| clientRes := {| head := Some (status, hs); sent := body_chunks;
                                      ended := false |};
                      piping := true |} in
  let complete := {| clientRes := {| head := Some (status, hs); sent := body_chunks;
                                     ended := true |};
                     piping := true |} in
  (forwardToAnthropic cfg method urlPath headers forwarded fresh_response
     (response_events status hs body_chunks)).2 = (Normal streaming, streaming) ∧
  (forwardToAnthropic cfg method urlPath headers forwarded fresh_response
     (response_events status hs body_chunks ++ [ResEnd])).2 = (Normal complete, complete).
Proof.
  cbn [forwardToAnthropic snd]. unfold response_events. split.
  - rewrite <- (app_nil_r (map ResData body_chunks)).
    cbn [deliver on_event]. cbn. rewrite deliver_data. reflexivity.
  - cbn [app deliver on_event]. cbn. rewrite deliver_data. reflexivity.
Qed.

Lemma length_Buffer_from (s : string) :
  Z.of_nat (length (Buffer_from s)) = Buffer_byteLength s.
Proof.
  unfold Buffer_from, Buffer_byteLength. f_equal.
  induction s as [|c rest IH]; cbn; [reflexivity | f_equal; exact IH].
Qed.

Lemma forward_content_length (headers : header_map) (forwarded : option string) :
  forward_headers cfg headers forwarded !! "content-length" =
  if present forwarded
  then Some (HNum (Buffer_byteLength (default "" forwarded)))
  else headers !! "content-length".
Proof.
  unfold forward_headers. rewrite !lookup_delete_ne by discriminate.
  destruct forwarded as [b|]; cbn [present default].
  - destruct (negb (String.eqb b "")).
    + apply lookup_insert_eq.
    + apply lookup_insert_ne. discriminate.
  - apply lookup_insert_ne. discriminate.
Qed.

(** X10.  The [content-length] sent upstream always describes what is
    written: when [handleRequest] sends a request upstream and writes a
    body, the header is the number of bytes written, also after the body
    has been rewritten; when it writes none, the header is the one
    received.  It sends no request only while [processPayload] has not
    returned. *)
Theorem handleRequest_content_length (req : request) (events : list upstream_event)
    (st : stats) (tr : trace) :
  let h := handleRequest cfg svc req events st tr in
  (upstream h = None ∧ transformed h = true ∧
   (processPayload cfg svc (default "" (collect_body req)) tr).1 = Pending) ∨
  ∃ sent_up,
    upstream h = Some sent_up ∧
    match written sent_up with
    | Some bytes =>
        opt_headers sent_up !! "content-length" = Some (HNum (Z.of_nat (length bytes)))
    | None =>
        opt_headers sent_up !! "content-length" = headers req !! "content-length"
    end.
Proof.
  assert (Hfwd : ∀ forwarded : option string,
            match (if present forwarded then Some (Buffer_from (default "" forwarded))
                   else None) with
            | Some bytes =>
                forward_headers cfg (headers req) forwarded !! "content-length"
                = Some (HNum (Z.of_nat (length bytes)))
            | None =>
                forward_headers cfg (headers req) forwarded !! "content-length"
                = headers req !! "content-length"
            end).
  { intros forwarded. rewrite forward_content_length.
    destruct (present forwarded); [rewrite length_Buffer_from|]; reflexivity. }
  assert (Hsent : ∀ forwarded st0 tr0 ran, ∃ sent_up,
            upstream (forward cfg req events forwarded st0 tr0 ran) = Some sent_up ∧
            match written sent_up with
            | Some bytes =>
                opt_headers sent_up !! "content-length"
                = Some (HNum (Z.of_nat (length bytes)))
            | None =>
                opt_headers sent_up !! "content-length" = headers req !! "content-length"
            end).
  { intros forwarded st0 tr0 ran. eexists. split; [reflexivity|]. cbn.
    specialize (Hfwd forwarded). destruct forwarded as [b|]; [|exact Hfwd].
    cbn in *. destruct (negb (String.eqb b "")); exact Hfwd. }
  cbv zeta. unfold handleRequest.
  destruct (collect_body req) as [b|]; [|right; apply Hsent].
  destruct (isMessagesEndpoint req && present (Some b)); [|right; apply Hsent].
  cbn [default from_option id].
  destruct (processPayload_fate cfg svc b tr) as [Hf | [result Hf]];
    destruct (processPayload cfg svc b tr) as [[r|e|] tr']; cbn [fst] in Hf;
    simplify_eq; [left; auto | right; apply Hsent].
Qed.

Lemma starts_with_app (p s : string) : starts_with p (p +:+ s) = true.
Proof.
  induction p as [|c p IH]; [reflexivity|].
  change (String c p +:+ s) with (String c (p +:+ s)). cbn [starts_with].
  rewrite Ascii.eqb_refl. exact IH.
Qed.

Lemma includes_infix (pre p post : string) : includes (pre +:+ p +:+ post) p = true.
Proof.
  induction pre as [|c pre IH].
  - change (EmptyString +:+ p +:+ post) with (p +:+ post).
    destruct (p +:+ post) eqn:E; cbn [includes]; rewrite <- E, starts_with_app; reflexivity.
  - change (String c pre +:+ p +:+ post) with (String c (pre +:+ p +:+ post)).
    cbn [includes]. rewrite IH. apply orb_true_r.
Qed.

(** X11.  The endpoint test is a substring test: a POST with a non-empty
    body is transformed as soon as its URL contains [/messages] anywhere,
    whatever precedes or follows it (a longer path, a query string), and
    the body sent upstream, once the transformer has returned, is the
    transformer's output. *)
Theorem handleRequest_matches_anywhere (req : request) (events : list upstream_event)
    (st : stats) (tr : trace) (pre post : string) :
  method req = "POST" →
  url req = pre +:+ "/messages" +:+ post →
  present (collect_body req) = true →
  let h := handleRequest cfg svc req events st tr in
  let returned := processPayload cfg svc (default "" (collect_body req)) tr in
  transformed h = true ∧
  ((returned.1 = Pending ∧ upstream h = None) ∨
   ∃ result,
     returned.1 = Fulfilled result ∧
     is_Some (upstream h) ∧
     forwarded_bytes h = Buffer_from (body result)).
Proof.
  intros Hm Hu Hb. cbv zeta. unfold handleRequest.
  assert (He : isMessagesEndpoint req = true).
  { unfold isMessagesEndpoint. rewrite Hu, Hm, includes_infix. reflexivity. }
  destruct (collect_body req) as [b|]; [|discriminate].
  rewrite He, Hb. cbn [andb]. change (default "" (Some b)) with b.
  destruct (processPayload_fate cfg svc b tr) as [Hf | [result Hf]];
    destruct (processPayload cfg svc b tr) as [[r|e|] tr']; cbn [fst] in Hf;
    simplify_eq.
  - split; [reflexivity|]. left. auto.
  - rewrite forward_bytes. split; [reflexivity|]. right. exists result.
    split; [reflexivity|]. split; [eexists; reflexivity | reflexivity].
Qed.

End Relay.

(* ===================================================================== *)
(** ** log *)
(* ===================================================================== *)

Section Journal.

Lemma append_assoc (a b c : string) : (a +:+ b) +:+ c = a +:+ b +:+ c.
Proof.
  induction a as [|x a IH]; [reflexivity|].
  change (String x (a +:+ b +:+ c)) with (String x a +:+ b +:+ c).
  change ((String x a +:+ b) +:+ c) with (String x ((a +:+ b) +:+ c)).
  rewrite IH. reflexivity.
Qed.

Lemma append_empty (a : string) : a +:+ "" = a.
Proof.
  induction a as [|x a IH]; [reflexivity|].
  change (String x a +:+ "") with (String x (a +:+ "")). rewrite IH. reflexivity.
Qed.

Lemma file_text_app (l1 l2 : list string) :
  file_text (l1 ++ l2) = file_text l1 +:+ file_text l2.
Proof.
  induction l1 as [|l rest IH]; [reflexivity|].
  cbn [app file_text]. rewrite IH, !append_assoc. reflexivity.
Qed.

(** One call: the line goes to the standard output, and then to the log
    file when the append succeeds. *)
Lemma log_line (target : stdout_target) (c : log_call) (j : journal) :
  log target (at_time c) (file_writable c) (message_logged c) j =
  {| console := console j ++
                match target with OwnStream => [line_of c] | TheLogFile => [] end;
     logfile := logfile j +:+ file_text (file_lines target c) |}.
Proof.
  unfold log, appendFileSync, console_log, file_lines. fold (line_of c).
  destruct j as [shown file].
  destruct target, (file_writable c); cbn [console logfile app file_text];
    rewrite ?app_nil_r, ?append_empty, ?append_assoc; reflexivity.
Qed.

(** X12.  [log] never fails and never loses a line of the standard output.
    When the standard output is a stream of its own, it receives one line
    per call, in order, and the log file grows by exactly the lines of the
    calls whose append succeeded.  When the standard output is the log file
    itself, as it is under [--daemon], the file receives every line once,
    and once more when the append succeeds, in the order of the calls. *)
Theorem log_all_appends (target : stdout_target) (calls : list log_call) (j : journal) :
  console (log_all target calls j) =
    console j ++ match target with
                 | OwnStream => map line_of calls
                 | TheLogFile => []
                 end ∧
  logfile (log_all target calls j) =
    logfile j +:+ file_text (concat (map (file_lines target) calls)) ∧
  (target = OwnStream →
   concat (map (file_lines target) calls) =
   map line_of (List.filter file_writable calls)) ∧
  (target = TheLogFile →
   Forall (λ c, line_of c ∈ concat (map (file_lines target) calls)) calls).
Proof.
  split; [|split; [|split]].
  - revert j. induction calls as [|c rest IH]; intros j; cbn [log_all].
    + destruct target; cbn; rewrite app_nil_r; reflexivity.
    + rewrite IH, log_line. cbn [console].
      destruct target; cbn [map]; rewrite <- app_assoc; reflexivity.
  - revert j. induction calls as [|c rest IH]; intros j; cbn [log_all].
    + cbn. rewrite append_empty. reflexivity.
    + rewrite IH, log_line. cbn [logfile map concat].
      rewrite file_text_app, append_assoc. reflexivity.
  - intros ->. induction calls as [|c rest IH]; [reflexivity|].
    cbn [map concat List.filter]. rewrite IH. unfold file_lines.
    destruct (file_writable c); reflexivity.
  - intros ->. induction calls as [|c rest IH]; constructor.
    + cbn [map concat]. apply elem_of_app. left. unfold file_lines.
      apply elem_of_app. left. apply list_elem_of_singleton. reflexivity.
    + eapply Forall_impl; [exact IH|]. intros c' Hc'. cbn [map concat].
      apply elem_of_app. right. exact Hc'.
Qed.

End Journal.

(* ===================================================================== *)
(** ** bin/cli.js *)
(* ===================================================================== *)

Section CommandLine.
Import Cli.

Lemma args_include_elem (args : list string) (flag : string) :
  args_include args flag = true ↔ flag ∈ args.
Proof.
  unfold args_include. rewrite existsb_exists. split.
  - intros (x & Hin & Heq). apply String.eqb_eq in Heq. subst x.
    apply list_elem_of_In. exact Hin.
  - intros Hin. exists flag. split; [apply list_elem_of_In; exact Hin|].
    apply String.eqb_refl.
Qed.

Lemma args_include_agree (args args' : list string) (flag : string) :
  (flag ∈ args ↔ flag ∈ args') → args_include args flag = args_include args' flag.
Proof.
  intros H. apply eq_true_iff_eq. rewrite !args_include_elem. exact H.
Qed.

(** X13.  The action of the command line depends only on which of the
    seven known options occur among the arguments: their order, their
    repetition and any other argument are irrelevant; and the proxy is
    started in the foreground exactly when none of them occurs. *)
Theorem main_depends_on_known_flags (args args' : list string) :
  (∀ flag, flag ∈ known_flags → (flag ∈ args ↔ flag ∈ args')) →
  main args = main args' ∧
  (main args = StartServer ↔ ∀ flag, flag ∈ known_flags → flag ∉ args).
Proof.
  intros H. split.
  - unfold main.
    rewrite !(args_include_agree args args') by (apply H; apply list_elem_of_In; cbn; tauto).
    reflexivity.
  - unfold main. split.
    + intros Hm flag Hk Hin. apply args_include_elem in Hin.
      unfold known_flags in Hk.
      repeat (apply elem_of_cons in Hk as [-> | Hk]; [rewrite Hin in Hm;
        rewrite ?orb_true_r in Hm; cbn in Hm;
        repeat (destruct (args_include args _); cbn in Hm; try discriminate)|]).
      inversion Hk.
    + intros Hno.
      assert (Hf : ∀ flag, flag ∈ known_flags → args_include args flag = false).
      { intros flag Hk. apply not_true_is_false. rewrite args_include_elem. auto. }
      rewrite !Hf by (apply list_elem_of_In; cbn; tauto). reflexivity.
Qed.

Lemma lines_differ (PORT : string) : stopped_line PORT ≠ no_process_line PORT.
Proof. unfold stopped_line, no_process_line. intros H. vm_compute in H. discriminate. Qed.

(** X14.  [stopDaemon] never throws and prints exactly one line; it runs
    [kill] only on a non-empty list of process ids that [lsof] has printed
    for the port, and it reports a stopped process exactly when both
    commands succeeded. *)
Theorem stopDaemon_reports (PORT : string) (trim : string → string)
    (execSync : string → exec_result) :
  let r := stopDaemon PORT trim execSync in
  let lsof := "lsof -ti:" +:+ PORT in
  (printed r = [stopped_line PORT] ∨ printed r = [no_process_line PORT]) ∧
  (printed r = [stopped_line PORT] ↔
     ∃ out ok, execSync lsof = Printed out ∧ trim out ≠ "" ∧
               execSync ("kill " +:+ trim out) = Printed ok) ∧
  (commands r = [lsof] ∨
   ∃ out, execSync lsof = Printed out ∧ trim out ≠ "" ∧
          commands r = [lsof; "kill " +:+ trim out]).
Proof.
  cbv zeta. unfold stopDaemon.
  pose proof (lines_differ PORT) as Hd.
  destruct (execSync ("lsof -ti:" +:+ PORT)) as [out|] eqn:E1.
  2:{ cbn. split; [auto|]. split; [|auto].
      split; [intros ?; simplify_eq | intros (? & ? & ? & _); discriminate]. }
  destruct (String.eqb (trim out) "") eqn:E2; cbn [negb].
  { apply String.eqb_eq in E2. cbn. split; [auto|]. split; [|auto].
    split; [intros ?; simplify_eq | intros (? & ? & ? & Hne & _); simplify_eq]. }
  apply String.eqb_neq in E2.
  destruct (execSync ("kill " +:+ trim out)) as [ok|] eqn:E3; cbn.
  - split; [auto|]. split; [|right; eauto]. split; [eauto | reflexivity].
  - split; [auto|]. split; [|right; eauto].
    split; [intros ?; simplify_eq | intros (? & ? & ? & _ & ?); congruence].
Qed.

End CommandLine.

(* ===================================================================== *)
(** ** The further properties at concrete inputs *)
(* ===================================================================== *)

Section Instances.
Import NodeFragment Scenario Cases.

Lemma improving_sound : sound_service sound_answer.
Proof.
  intros tr call data response Hsvc Hp. injection Hsvc as <-.
  vm_compute in Hp. injection Hp as <-.
  split; intros v Hv; vm_compute in Hv; injection Hv as <-; eexists; split;
    try reflexivity; lia.
Qed.

(** The two long texts of [two_long] are sent in document order, and the
    short block is not. *)
Example two_long_calls :
  (processPayload with_key sound_answer two_long []).2
  = [call_for with_key (JStr (text_of_length 160));
     call_for with_key (JStr (text_of_length 170))].
Proof. vm_compute. reflexivity. Qed.

Example two_long_totals :
  ∃ result,
    (processPayload with_key sound_answer two_long []).1 = Fulfilled result ∧
    result_totalSaved result = Num 240 ∧
    result_totalOriginal result = PNumber (Num 400).
Proof. eexists. vm_compute. auto. Qed.

(** A request without a body keeps the [content-length] it came with; a
    rewritten body is announced with its own length. *)
Example content_length_kept :
  ∃ sent_up,
    upstream (handleRequest with_key sound_answer get_models upstream_ok
                initial_stats []) = Some sent_up ∧
    written sent_up = None ∧
    opt_headers sent_up !! "content-length" = Some (HStr "0").
Proof. eexists. vm_compute. auto. Qed.

Example content_length_rewritten :
  ∃ sent_up,
    upstream (handleRequest with_key sound_answer (post_count_tokens two_long)
                upstream_ok initial_stats []) = Some sent_up ∧
    opt_headers sent_up !! "content-length"
    = Some (HNum (Z.of_nat (length (default [] (written sent_up))))) ∧
    opt_headers sent_up !! "content-length" ≠ Some (HStr "3").
Proof. eexists. vm_compute. split; [reflexivity|]. split; [reflexivity | discriminate]. Qed.

(** On a machine where process 4242 listens on the port, [lsof] prints its
    id and a line feed, and [kill 4242] is run. *)
Example stop_listening :
  Cli.stopDaemon "8877" Cli.trim_ascii shell_listening
  = {| Cli.commands := ["lsof -ti:8877"; "kill 4242"];
       Cli.printed := [Cli.stopped_line "8877"] |}.
Proof. vm_compute. reflexivity. Qed.

Example stop_nothing :
  Cli.stopDaemon "9000" Cli.trim_ascii shell_listening
  = {| Cli.commands := ["lsof -ti:9000"];
       Cli.printed := [Cli.no_process_line "9000"] |}.
Proof. vm_compute. reflexivity. Qed.

(** In the foreground a write that fails drops the line from the file and
    keeps it on the terminal. *)
Example log_unwritable :
  log_all OwnStream
    [ {| at_time := "t1"; file_writable := true; message_logged := "a" |};
      {| at_time := "t2"; file_writable := false; message_logged := "b" |};
      {| at_time := "t3"; file_writable := true; message_logged := "c" |} ]
    {| console := []; logfile := "" |}
  = {| console := ["[t1] a"; "[t2] b"; "[t3] c"];
       logfile := "[t1] a" +:+ newline +:+ "[t3] c" +:+ newline |}.
Proof. vm_compute. reflexivity. Qed.

(** Under [--daemon] every line is in the file twice, and once when the
    append fails. *)
Example log_daemon :
  log_all TheLogFile
    [ {| at_time := "t1"; file_writable := true; message_logged := "a" |};
      {| at_time := "t2"; file_writable := false; message_logged := "b" |} ]
    {| console := []; logfile := "" |}
  = {| console := [];
       logfile := "[t1] a" +:+ newline +:+ "[t1] a" +:+ newline
                  +:+ "[t2] b" +:+ newline |}.
Proof. vm_compute. reflexivity. Qed.

Lemma processPayload_without_credential_witness :
  no_credential without_key = true ∧
  (processPayload without_key sound_answer two_long []).2 = [] ∧
  ((processPayload without_key sound_answer two_long []).1
     = Fulfilled (unchanged two_long) ∨
   ∃ payload,
     JSON_parse two_long = Some payload ∧
     (processPayload without_key sound_answer two_long []).1 =
     Fulfilled {| body := JSON_stringify payload;
                  result_totalSaved := Num 0;
                  result_totalOriginal := PNumber (Num 0) |}).
Proof.
  split; [reflexivity|].
  apply (processPayload_without_credential without_key sound_answer two_long []).
  reflexivity.
Defined.

Lemma processPayload_with_silent_service_witness :
  silent_service refusing ∧
  ((processPayload with_key refusing two_long []).1 = Fulfilled (unchanged two_long) ∨
   ∃ payload,
     JSON_parse two_long = Some payload ∧
     (processPayload with_key refusing two_long []).1 =
     Fulfilled {| body := JSON_stringify payload;
                  result_totalSaved := Num 0;
                  result_totalOriginal := PNumber (Num 0) |}).
Proof.
  assert (Hs : silent_service refusing)
    by (intros tr call; split; [|intros data]; discriminate).
  split; [exact Hs|].
  apply (processPayload_with_silent_service with_key refusing two_long []).
  exact Hs.
Defined.

Lemma processPayload_totals_bounded_witness :
  sound_service sound_answer ∧
  (∃ result, (processPayload with_key sound_answer two_long []).1 = Fulfilled result) ∧
  ((processPayload with_key sound_answer two_long []).1 = Pending ∨
   ∃ result s o,
     (processPayload with_key sound_answer two_long []).1 = Fulfilled result ∧
     result_totalSaved result = Num s ∧
     result_totalOriginal result = PNumber (Num o) ∧
     0 ≤ s ≤ o).
Proof.
  split; [exact improving_sound|]. split; [eexists; vm_compute; reflexivity|].
  apply (processPayload_totals_bounded with_key sound_answer two_long []).
  exact improving_sound.
Defined.

Lemma handleRequest_keeps_totals_sound_witness :
  sound_service sound_answer ∧
  tokensSaved running_stats = PNumber (Num 40) ∧
  originalTokens running_stats = PNumber (Num 90) ∧
  ∃ s' o',
    tokensSaved (stats_after (handleRequest with_key sound_answer (post_messages two_long)
                                upstream_ok running_stats [])) = PNumber (Num s') ∧
    originalTokens (stats_after (handleRequest with_key sound_answer
                                   (post_messages two_long) upstream_ok running_stats []))
      = PNumber (Num o') ∧
    0 ≤ s' ≤ o' ∧ 40 ≤ s' ∧ 90 ≤ o'.
Proof.
  split; [exact improving_sound|]. split; [reflexivity|]. split; [reflexivity|].
  apply (handleRequest_keeps_totals_sound with_key sound_answer (post_messages two_long)
           upstream_ok running_stats [] 40 90);
    [exact improving_sound | reflexivity | reflexivity | lia].
Defined.

Lemma handleRequest_keeps_counters_ordered_witness :
  0 ≤ compressed running_stats ≤ requests running_stats ∧
  let st' := stats_after (handleRequest with_key sound_answer (post_messages two_long)
                            upstream_ok running_stats []) in
  0 ≤ compressed st' ≤ requests st' ∧
  compressed running_stats ≤ compressed st' ≤ compressed running_stats + 1.
Proof.
  assert (H : 0 ≤ compressed running_stats ≤ requests running_stats) by (cbn; lia).
  split; [exact H|].
  apply (handleRequest_keeps_counters_ordered with_key sound_answer
           (post_messages two_long) upstream_ok running_stats []).
  exact H.
Defined.

Lemma no_call_no_saving_witness :
  calls_after (handleRequest without_key sound_answer (post_messages two_long)
                 upstream_ok running_stats []) = [] ∧
  compressed (stats_after (handleRequest without_key sound_answer (post_messages two_long)
                             upstream_ok running_stats [])) = 3 ∧
  (processPayload with_key sound_answer mixed []).2 ≠ [] ∧
  (processPayload without_key sound_answer mixed []).2 = [] ∧
  ∃ result,
    (processPayload without_key sound_answer mixed []).1 = Fulfilled result ∧
    result_totalSaved result = Num 0 ∧
    result_totalOriginal result = PNumber (Num 0).
Proof.
  assert (Hc : calls_after (handleRequest without_key sound_answer (post_messages two_long)
                              upstream_ok running_stats []) = [])
    by (vm_compute; reflexivity).
  destruct (no_call_no_saving without_key sound_answer (post_messages two_long)
              upstream_ok running_stats []) as [Hpayload Hstats].
  split; [exact Hc|]. split; [exact (Hstats Hc)|].
  split; [vm_compute; discriminate|].
  split; [vm_compute; reflexivity|].
  apply (Hpayload mixed). vm_compute. reflexivity.
Defined.

Lemma handleRequest_matches_anywhere_witness :
  method (post_count_tokens two_long) = "POST" ∧
  url (post_count_tokens two_long) = "/v1" +:+ "/messages" +:+ "/count_tokens?beta=true" ∧
  present (collect_body (post_count_tokens two_long)) = true ∧
  (∃ result,
     (processPayload with_key sound_answer
        (default "" (collect_body (post_count_tokens two_long))) []).1
     = Fulfilled result) ∧
  let h := handleRequest with_key sound_answer (post_count_tokens two_long)
             upstream_ok initial_stats [] in
  let returned := processPayload with_key sound_answer
                    (default "" (collect_body (post_count_tokens two_long))) [] in
  transformed h = true ∧
  ((returned.1 = Pending ∧ upstream h = None) ∨
   ∃ result,
     returned.1 = Fulfilled result ∧
     is_Some (upstream h) ∧
     forwarded_bytes h = Buffer_from (body result)).
Proof.
  split; [reflexivity|]. split; [reflexivity|]. split; [vm_compute; reflexivity|].
  split; [eexists; vm_compute; reflexivity|].
  apply (handleRequest_matches_anywhere with_key sound_answer (post_count_tokens two_long)
           upstream_ok initial_stats [] "/v1" "/count_tokens?beta=true");
    [reflexivity | reflexivity | vm_compute; reflexivity].
Defined.

Lemma main_depends_on_known_flags_witness :
  (∀ flag, flag ∈ Cli.known_flags →
     (flag ∈ ["--verbose"; "-d"; "-s"; "-d"] ↔ flag ∈ ["-s"; "-d"])) ∧
  Cli.main ["--verbose"; "-d"; "-s"; "-d"] = Cli.main ["-s"; "-d"] ∧
  (Cli.main ["--verbose"; "-d"; "-s"; "-d"] = Cli.StartServer ↔
   ∀ flag, flag ∈ Cli.known_flags → flag ∉ ["--verbose"; "-d"; "-s"; "-d"]).
Proof.
  assert (H : ∀ flag, flag ∈ Cli.known_flags →
                (flag ∈ ["--verbose"; "-d"; "-s"; "-d"] ↔ flag ∈ ["-s"; "-d"])).
  { intros flag Hk. unfold Cli.known_flags in Hk.
    repeat (apply elem_of_cons in Hk as [-> | Hk];
            [rewrite <- !args_include_elem; vm_compute; tauto|]).
    inversion Hk. }
  split; [exact H|].
  apply (main_depends_on_known_flags ["--verbose"; "-d"; "-s"; "-d"] ["-s"; "-d"]).
  exact H.
Defined.

End Instances.

(* ===================================================================== *)
(** ** What the caller has received is never taken back *)
(* ===================================================================== *)

Section Monotone.
Context `{rt : Runtime}.
Variable cfg : config.
Variable svc : service.

Lemma response_extends_refl (res : client_response) : response_extends res res.
Proof. unfold response_extends. auto. Qed.

Lemma response_extends_trans (a b c : client_response) :
  response_extends a b → response_extends b c → response_extends a c.
Proof.
  intros (Ha1 & Ha2 & Ha3) (Hb1 & Hb2 & Hb3). unfold response_extends.
  split; [auto|]. split; [etrans; eassumption | auto].
Qed.

Lemma write_extends (chunk : list byte) (res : client_response) :
  response_extends res (write chunk res).
Proof.
  unfold write, response_extends. destruct (ended res) eqn:E; [auto|].
  cbn. split; [auto|]. split; [apply prefix_app_r; reflexivity | congruence].
Qed.

Lemma end_response_extends (res : client_response) :
  response_extends res (end_response res).
Proof. unfold response_extends. cbn. auto. Qed.

Lemma writeHead_extends (status : Z) (hs : header_map) (res res' : client_response) :
  writeHead status hs res = Normal res' → response_extends res res'.
Proof.
  unfold writeHead. destruct (head res) eqn:E; [discriminate|].
  intros ?; simplify_eq. unfold response_extends. cbn.
  split; [congruence | auto].
Qed.

Lemma on_event_extends (ev : upstream_event) (r r' : relay) :
  on_event ev r = Normal r' → response_extends (clientRes r) (clientRes r').
Proof.
  destruct ev as [message|status hs|chunk| |]; cbn.
  - destruct (writeHead 502 ∅ (clientRes r)) as [res|e] eqn:E; cbn; [|discriminate].
    intros H; cbv [mret completion_ret] in H; simplify_eq. cbn.
    eapply response_extends_trans; [eapply writeHead_extends; eassumption|].
    eapply response_extends_trans; [apply write_extends | apply end_response_extends].
  - destruct (writeHead status hs (clientRes r)) as [res|e] eqn:E; cbn; [|discriminate].
    intros H; cbv [mret completion_ret] in H; simplify_eq. cbn. eapply writeHead_extends; eassumption.
  - intros H; cbv [mret completion_ret] in H; simplify_eq. destruct (piping r); cbn;
      [apply write_extends | apply response_extends_refl].
  - intros H; cbv [mret completion_ret] in H; simplify_eq. destruct (piping r); cbn;
      [apply end_response_extends | apply response_extends_refl].
  - intros H; cbv [mret completion_ret] in H; simplify_eq. apply response_extends_refl.
Qed.

Lemma deliver_extends (events : list upstream_event) (r : relay) :
  response_extends (clientRes r) (clientRes (deliver events r).2).
Proof.
  revert r. induction events as [|ev rest IH]; intros r; cbn [deliver].
  - apply response_extends_refl.
  - destruct (on_event ev r) as [r'|e] eqn:E; [|apply response_extends_refl].
    eapply response_extends_trans; [eapply on_event_extends; eassumption | apply IH].
Qed.

Lemma deliver_normal (events : list upstream_event) (r r1 : relay) :
  (deliver events r).1 = Normal r1 → (deliver events r).2 = r1.
Proof.
  revert r. induction events as [|ev rest IH]; intros r; cbn [deliver].
  - cbn. congruence.
  - destruct (on_event ev r) as [r'|e]; [apply IH | discriminate].
Qed.

Lemma deliver_app (events more : list upstream_event) (r : relay) :
  deliver (events ++ more) r =
  match (deliver events r).1 with
  | Normal _ => deliver more (deliver events r).2
  | Throw _ => deliver events r
  end.
Proof.
  revert r. induction events as [|ev rest IH]; intros r; cbn [app deliver].
  - reflexivity.
  - destruct (on_event ev r) as [r'|e]; [apply IH | reflexivity].
Qed.

(** X15.  Whatever the upstream connection reports next, what the caller
    has received is never taken back: after more events the head that was
    sent is the same, the chunks sent so far are still the first ones, in
    order, and an ended response stays ended; this also holds across a
    listener that throws. *)
Theorem forwardToAnthropic_only_appends (method urlPath : string) (headers : header_map)
    (forwarded : option string) (res : client_response)
    (events more : list upstream_event) :
  response_extends
    (clientRes (forwardToAnthropic cfg method urlPath headers forwarded res events).2.2)
    (clientRes
       (forwardToAnthropic cfg method urlPath headers forwarded res (events ++ more)).2.2)
  ∧ response_extends res
      (clientRes (forwardToAnthropic cfg method urlPath headers forwarded res events).2.2).
Proof.
  cbn [forwardToAnthropic snd]. split.
  - rewrite deliver_app. destruct (deliver events _).1; [apply deliver_extends|].
    apply response_extends_refl.
  - apply (deliver_extends events {| clientRes := res; piping := false |}).
Qed.


End Monotone.

(* ===================================================================== *)
(** ** When the transformer returns *)
(* ===================================================================== *)

Section Settling.
Context `{rt : Runtime}.
Variable cfg : config.
Variable svc : service.







End Settling.

Section Returned.
Import NodeFragment Scenario Cases.


End Returned.
